(** * Content aggregator: the ingestion pipeline of [app.py]

    A shallow embedding of the scraper ([ContentScraper]), of the background
    job [run_content_scraping] with its SQLAlchemy session, and of the two
    ways a run is started ([init_scheduler], [manual_scrape]).

    Conventions of the model.
    - A Python [str] is a [string]; a character stands for the code point of
      the same number, so the texts covered are those over the code points
      below 256.  [lower], [strip] and slicing follow Python on these.
    - The relevance score, a Python float, is an exact rational ([Q]).
    - What the job observes of the outside (HTTP answers, parsed feeds, the
      clock, storage failures) is read from a [world], one per loop
      iteration. *)

From Stdlib Require Import List String Ascii Bool Arith ZArith QArith Qminmax Lia.
Import ListNotations.

Local Open Scope string_scope.
Local Open Scope nat_scope.

(** ** Python string operations *)

Module PyStr.

(** [str.lower] on one character: A-Z and the Latin-1 capitals
    (0xC0-0xDE without the multiplication sign 0xD7) move up by 32. *)
Definition lower_char (c : ascii) : ascii :=
  let n := nat_of_ascii c in
  if ((65 <=? n) && (n <=? 90))
     || ((192 <=? n) && (n <=? 222) && negb (n =? 215))
  then ascii_of_nat (n + 32)
  else c.

Fixpoint lower (s : string) : string :=
  match s with
  | EmptyString => EmptyString
  | String c s' => String (lower_char c) (lower s')
  end.

(** [sub in s] *)
Fixpoint contains (s sub : string) : bool :=
  if prefix sub s then true
  else match s with
       | EmptyString => false
       | String _ s' => contains s' sub
       end.

(** [s.count(sub)] for a non-empty [sub]: occurrences are found from the
    left and do not overlap; [skip] is the number of characters still
    covered by the occurrence found last. *)
Fixpoint count_from (sub : string) (skip : nat) (s : string) : nat :=
  match s with
  | EmptyString => 0
  | String _ s' =>
      match skip with
      | S k => count_from sub k s'
      | O => if prefix sub s
             then S (count_from sub (length sub - 1) s')
             else count_from sub 0 s'
      end
  end.

(** [s.count(sub)]; the empty string is counted between all characters
    and at both ends. *)
Definition count (s sub : string) : nat :=
  match sub with
  | EmptyString => S (length s)
  | String _ _ => count_from sub 0 s
  end.

(** [s[:n]] *)
Fixpoint slice_to (n : nat) (s : string) : string :=
  match n, s with
  | S n', String c s' => String c (slice_to n' s')
  | _, _ => EmptyString
  end.

(** [str.isspace] on one character. *)
Definition is_space (c : ascii) : bool :=
  let n := nat_of_ascii c in
  ((9 <=? n) && (n <=? 13)) || ((28 <=? n) && (n <=? 32))
  || (n =? 133) || (n =? 160).

Fixpoint lstrip (s : string) : string :=
  match s with
  | EmptyString => EmptyString
  | String c s' => if is_space c then lstrip s' else s
  end.

Fixpoint rstrip (s : string) : string :=
  match s with
  | EmptyString => EmptyString
  | String c s' =>
      match rstrip s' with
      | EmptyString => if is_space c then EmptyString else String c EmptyString
      | r => String c r
      end
  end.

(** [s.strip()] *)
Definition strip (s : string) : string := rstrip (lstrip s).

(** Truth value of a string in a condition: non-empty. *)
Definition truthy (s : string) : bool :=
  match s with EmptyString => false | String _ _ => true end.

End PyStr.

(** ** Database models *)

Record Keyword := {
  kw_id : nat;
  term : string;
  kw_active : bool
}.


(** The other tables, with the columns the job reads or writes.  [Article.summary] is never set
    and [Article.scraped_date] is filled by its column default; both are
    left out. *)

Record Source := {
  src_id : nat;
  src_name : string;
  src_url : string;
  source_type : string;
  src_active : bool;
  last_scraped : option Z
}.

Record Article := {
  art_id : nat;
  art_title : string;
  art_content : string;
  art_url : string;
  art_author : option string;
  art_published_date : option Z;
  art_source_id : nat
}.

Record ArticleKeyword := {
  ak_id : nat;
  ak_article_id : nat;
  ak_keyword_id : nat;
  relevance_score : Q
}.

Record tables := {
  keywords_t : list Keyword;
  sources_t : list Source;
  articles_t : list Article;
  article_keywords_t : list ArticleKeyword
}.

(** ** Case-insensitive occurrences, as the specification words them

    The number of occurrences of a term in a text "under case-insensitive
    comparison": the text is scanned from the left, a position counts when
    the term is read there up to the case of each character, and the scan
    resumes behind an occurrence. *)

Module CaseInsensitive.
Import PyStr.

Definition eqb_ci (a b : ascii) : bool :=
  Ascii.eqb (lower_char a) (lower_char b).

Fixpoint prefix_ci (sub s : string) : bool :=
  match sub, s with
  | EmptyString, _ => true
  | String a sub', String b s' => eqb_ci a b && prefix_ci sub' s'
  | String _ _, EmptyString => false
  end.

Fixpoint occurrences_from (sub : string) (skip : nat) (s : string) : nat :=
  match s with
  | EmptyString => 0
  | String _ s' =>
      match skip with
      | S k => occurrences_from sub k s'
      | O => if prefix_ci sub s
             then S (occurrences_from sub (length sub - 1) s')
             else occurrences_from sub 0 s'
      end
  end.

Definition occurrences_ci (sub s : string) : nat :=
  match sub with
  | EmptyString => S (length s)
  | String _ _ => occurrences_from sub 0 s
  end.

End CaseInsensitive.

(** ** Keyword matching *)

(** One element of the list [check_keyword_matches] returns: the dict
    [{'keyword': keyword, 'score': score}]. *)
Record keyword_match := {
  keyword : Keyword;
  score : Q
}.

Module Matcher.
Import PyStr.

(** [min(count / 10.0, 1.0)] *)
Definition relevance (count : nat) : Q := Qmin (Z.of_nat count # 10) 1.

Fixpoint check_keyword_matches (content : string) (keywords : list Keyword)
  : list keyword_match :=
  match keywords with
  | [] => []
  | kw :: rest =>
      let content_lower := lower content in
      if contains content_lower (lower (term kw))
      then {| keyword := kw;
              score := relevance (count content_lower (lower (term kw))) |}
           :: check_keyword_matches content rest
      else check_keyword_matches content rest
  end.


(** Whether the term of [k] is found in [content], and the entry the
    result then holds for it. *)
Definition hit (content : string) (k : Keyword) : bool :=
  contains (lower content) (lower (term k)).

Definition match_for (content : string) (k : Keyword) : keyword_match :=
  {| keyword := k;
     score := relevance (CaseInsensitive.occurrences_ci (term k) content) |}.

End Matcher.

(** ** The parsed page ([BeautifulSoup])

    The tree that [BeautifulSoup(response.content, 'html.parser')] builds.
    Of the attributes of a tag, those the selectors of
    [extract_article_content] read are kept: [id], [role] and the list of
    classes.  The strings of the tree are its text; comments, which
    [get_text] passes over, are not part of it. *)

Module Soup.
Import PyStr.

Record attrs := {
  attr_id : option string;
  attr_role : option string;
  attr_class : list string
}.

Definition no_attrs : attrs :=
  {| attr_id := None; attr_role := None; attr_class := [] |}.

#[warnings="-register-all"] Inductive node :=
| NavigableString (s : string)
| Tag (name : string) (a : attrs) (contents : list node).

(** [tag.descendants]: every node below the tag, in document order. *)
Fixpoint descendants (n : node) : list node :=
  match n with
  | NavigableString _ => []
  | Tag _ _ cs => flat_map (fun c => c :: descendants c) cs
  end.

Definition tag_named (names : list string) (n : node) : bool :=
  match n with
  | NavigableString _ => false
  | Tag nm _ _ => existsb (String.eqb nm) names
  end.

(** The tree after [for script in soup(names): script.decompose()]:
    every tag with one of the names is taken out with all it holds. *)
Fixpoint decompose_all (names : list string) (n : node) : node :=
  match n with
  | NavigableString s => NavigableString s
  | Tag nm a cs =>
      Tag nm a
        ((fix kept (l : list node) : list node :=
            match l with
            | [] => []
            | c :: l' =>
                if tag_named names c then kept l'
                else decompose_all names c :: kept l'
            end) cs)
  end.

Fixpoint join (l : list string) : string :=
  match l with
  | [] => EmptyString
  | s :: l' => s ++ join l'
  end.

Definition strings (n : node) : list string :=
  flat_map (fun d => match d with
                     | NavigableString s => [s]
                     | Tag _ _ _ => []
                     end) (descendants n).

(** [tag.get_text()] *)
Definition get_text (n : node) : string := join (strings n).

(** [tag.get_text(strip=True)]: every string is stripped and the empty
    ones are dropped before joining. *)
Definition get_text_strip (n : node) : string :=
  join (filter truthy (map strip (strings n))).

(** [soup.find(name)]: the first tag of that name, in document order. *)
Definition find (nm : string) (n : node) : option node :=
  List.find (tag_named [nm]) (descendants n).

Inductive selector :=
| SelTag (nm : string)          (* article *)
| SelRole (v : string)          (* [role="v"] *)
| SelClass (c : string)         (* .c *)
| SelId (i : string).           (* #i *)

Definition opt_eqb (o : option string) (v : string) : bool :=
  match o with
  | Some x => String.eqb x v
  | None => false
  end.

Definition selects (sel : selector) (n : node) : bool :=
  match n with
  | NavigableString _ => false
  | Tag nm a _ =>
      match sel with
      | SelTag t => String.eqb nm t
      | SelRole v => opt_eqb (attr_role a) v
      | SelClass c => existsb (String.eqb c) (attr_class a)
      | SelId i => opt_eqb (attr_id a) i
      end
  end.

(** [soup.select_one(selector)] *)
Definition select_one (sel : selector) (n : node) : option node :=
  List.find (selects sel) (descendants n).

End Soup.

(** ** What a loop iteration observes of the outside *)

(** A feed entry as [feedparser] hands it over: each field is what
    [entry.get(name)] finds, [None] when the entry has no such field. *)
Record feed_entry := {
  e_title : option string;
  e_description : option string;
  e_summary : option string;
  e_link : option string;
  e_author : option string;
  e_published : option string
}.

Record world := {
  (** [session.get(url, timeout=10)], [raise_for_status()] and the parse
      of the body; [None] when one of them raises. *)
  http_get : string -> option Soup.node;
  (** [feedparser.parse(rss_url).entries]; [None] when it raises. *)
  feed_entries : string -> option (list feed_entry);
  (** [datetime.fromtimestamp(time.mktime(email.utils.parsedate(s)))];
      [None] when it raises. *)
  parsedate : string -> option Z;
  (** [datetime.utcnow()] at the end of the iteration. *)
  utcnow : Z;
  (** Whether the k-th storage operation of the iteration (a query, a
      flush or a commit) raises. *)
  storage_fault : nat -> bool
}.

(** ** The scraper *)

(** The dict a scrape returns for one article.  [scrape_website] leaves
    the keys [author] and [published_date] out, and the job reads them
    with [.get], which gives [None]. *)
Record article_data := {
  ad_title : string;
  ad_content : string;
  ad_url : string;
  ad_author : option string;
  ad_published_date : option Z;
  ad_keywords : list keyword_match
}.

Module ContentScraper.
Import PyStr Soup Matcher.

Definition article_selectors : list selector :=
  [ SelTag "article"; SelRole "main"; SelClass "article-content";
    SelClass "post-content"; SelId "content"; SelClass "entry-content";
    SelClass "story-body"; SelClass "article-body" ].

Fixpoint first_selected (sels : list selector) (soup : node) : option node :=
  match sels with
  | [] => None
  | sel :: rest =>
      match select_one sel soup with
      | Some element => Some element
      | None => first_selected rest soup
      end
  end.

Definition extract_article_content (soup : node) : string :=
  match first_selected article_selectors soup with
  | Some element => get_text_strip element
  | None =>
      match find "body" soup with
      | Some body => get_text_strip body
      | None => get_text_strip soup
      end
  end.

Definition content_cap : nat := 5000.

Definition scrape_website (w : world) (url : string) (keywords : list Keyword)
  : option article_data :=
  match http_get w url with
  | None => None
  | Some page =>
      let soup := decompose_all ["script"; "style"] page in
      let text_content := get_text soup in
      let title := match find "title" soup with
                   | Some t => get_text t
                   | None => url
                   end in
      let keyword_matches := check_keyword_matches text_content keywords in
      match keyword_matches with
      | [] => None
      | _ :: _ =>
          let article_content := extract_article_content soup in
          Some {| ad_title := strip title;
                  ad_content := slice_to content_cap article_content;
                  ad_url := url;
                  ad_author := None;
                  ad_published_date := None;
                  ad_keywords := keyword_matches |}
      end
  end.

(** [entry.get(name, '')] *)
Definition get_or_empty (field : option string) : string :=
  match field with
  | Some v => v
  | None => EmptyString
  end.

Definition parse_date (w : world) (date_string : option string) : option Z :=
  match date_string with
  | None => None
  | Some s => if truthy s then parsedate w s else None
  end.

Definition entry_title (entry : feed_entry) : string :=
  get_or_empty (e_title entry).

(** [entry.get('description', '') + ' ' + entry.get('summary', '')] *)
Definition entry_content (entry : feed_entry) : string :=
  get_or_empty (e_description entry) ++ " " ++ get_or_empty (e_summary entry).

Definition entry_matches (keywords : list Keyword) (entry : feed_entry)
  : list keyword_match :=
  check_keyword_matches (entry_title entry ++ " " ++ entry_content entry)
                        keywords.

(** The body of the loop over the entries: the articles it appends. *)
Definition scrape_entry (w : world) (keywords : list Keyword)
           (entry : feed_entry) : list article_data :=
  match entry_matches keywords entry with
  | [] => []
  | keyword_matches =>
      [ {| ad_title := entry_title entry;
           ad_content := slice_to content_cap (entry_content entry);
           ad_url := get_or_empty (e_link entry);
           ad_author := Some (get_or_empty (e_author entry));
           ad_published_date := parse_date w (e_published entry);
           ad_keywords := keyword_matches |} ]
  end.

Definition scrape_rss (w : world) (rss_url : string) (keywords : list Keyword)
  : list article_data :=
  match feed_entries w rss_url with
  | None => []
  | Some entries => flat_map (scrape_entry w keywords) (firstn 10 entries)
  end.

(** The text [scrape_website] matches the keywords against: that of the
    whole page, scripts and styles taken out; [None] when the page could
    not be fetched. *)
Definition page_text (w : world) (url : string) : option string :=
  option_map (fun page => get_text (decompose_all ["script"; "style"] page))
             (http_get w url).


End ContentScraper.

(** ** Rows *)

(** Reads and writes of single rows. *)

Module Tables.

Definition url_is (url : string) (a : Article) : bool :=
  String.eqb (art_url a) url.

(** The first article with this url. *)
Definition find_article (url : string) (t : tables) : option Article :=
  List.find (url_is url) (articles_t t).

(** The id a new row gets. *)
Definition next_id (ids : list nat) : nat := S (list_max ids).

Definition insert_article (a : Article) (t : tables) : tables :=
  {| keywords_t := keywords_t t;
     sources_t := sources_t t;
     articles_t := articles_t t ++ [a];
     article_keywords_t := article_keywords_t t |}.

Definition insert_article_keyword (article_id keyword_id : nat) (sc : Q)
           (t : tables) : tables :=
  {| keywords_t := keywords_t t;
     sources_t := sources_t t;
     articles_t := articles_t t;
     article_keywords_t :=
       article_keywords_t t
       ++ [ {| ak_id := next_id (map ak_id (article_keywords_t t));
               ak_article_id := article_id;
               ak_keyword_id := keyword_id;
               relevance_score := sc |} ] |}.

Definition touch (id : nat) (now : Z) (src : Source) : Source :=
  if src_id src =? id
  then {| src_id := src_id src; src_name := src_name src;
          src_url := src_url src; source_type := source_type src;
          src_active := src_active src; last_scraped := Some now |}
  else src.

Definition touch_source (id : nat) (now : Z) (t : tables) : tables :=
  {| keywords_t := keywords_t t;
     sources_t := map (touch id now) (sources_t t);
     articles_t := articles_t t;
     article_keywords_t := article_keywords_t t |}.

(** The row of the source with this id. *)
Definition source_by_id (id : nat) (t : tables) : option Source :=
  List.find (fun src => src_id src =? id) (sources_t t).

End Tables.

(** ** The SQLAlchemy session

    [committed] is what the database holds and every other reader sees;
    [working] is the view of the open transaction: the committed rows and
    what was added since.  A raised exception leaves the session as it was
    at the raise; only [rollback] brings [working] back. *)

Inductive exn :=
| IntegrityError      (* the UNIQUE constraint on Article.url *)
| OperationalError.   (* the storage failed *)

Record session := {
  committed : tables;
  working : tables;
  ops : nat             (* storage operations of the current iteration *)
}.

Module Session.

Definition M (A : Type) : Type := session -> session * (exn + A).

Definition ret {A} (a : A) : M A := fun s => (s, inr a).

Definition raise {A} (e : exn) : M A := fun s => (s, inl e).

Definition bind {A B} (c : M A) (k : A -> M B) : M B :=
  fun s =>
    match c s with
    | (s', inr a) => k a s'
    | (s', inl e) => (s', inl e)
    end.

Declare Scope session_scope.
Delimit Scope session_scope with session.
Notation "x <- c ;; k" := (bind c (fun x => k))
  (at level 61, c at next level, right associativity) : session_scope.
Notation "c ;; k" := (bind c (fun _ => k))
  (at level 61, right associativity) : session_scope.
Local Open Scope session_scope.

(** [for x in xs: body(x)] *)
Fixpoint for_each {A} (xs : list A) (body : A -> M unit) : M unit :=
  match xs with
  | [] => ret tt
  | x :: xs' => body x ;; for_each xs' body
  end.

Definition set_working (t : tables) (s : session) : session :=
  {| committed := committed s; working := t; ops := ops s |}.

(** One round trip to the storage: it is counted, and it raises when the
    world says so. *)
Definition storage_op (w : world) : M unit :=
  fun s =>
    let s' := {| committed := committed s; working := working s;
                 ops := S (ops s) |} in
    if storage_fault w (ops s) then (s', inl OperationalError)
    else (s', inr tt).

(** [Article.query.filter_by(url=url).first()] *)
Definition article_by_url (w : world) (url : string) : M (option Article) :=
  storage_op w ;;
  fun s => (s, inr (Tables.find_article url (working s))).

(** [db.session.add(article); db.session.flush()]: the row gets its id;
    the UNIQUE constraint on the url is checked by the database. *)
Definition add_article_flush (w : world) (title content url : string)
           (author : option string) (published_date : option Z)
           (source_id : nat) : M Article :=
  storage_op w ;;
  fun s =>
    let t := working s in
    if existsb (Tables.url_is url) (articles_t t) then (s, inl IntegrityError)
    else
      let article :=
        {| art_id := Tables.next_id (map art_id (articles_t t));
           art_title := title; art_content := content; art_url := url;
           art_author := author; art_published_date := published_date;
           art_source_id := source_id |} in
      (set_working (Tables.insert_article article t) s, inr article).

(** [db.session.add(article_keyword)]: the row waits in the transaction
    and gets its id when it is written. *)
Definition add_article_keyword (article_id keyword_id : nat) (sc : Q) : M unit :=
  fun s =>
    (set_working
       (Tables.insert_article_keyword article_id keyword_id sc (working s)) s,
     inr tt).

(** [source.last_scraped = now] *)
Definition set_last_scraped (id : nat) (now : Z) : M unit :=
  fun s => (set_working (Tables.touch_source id now (working s)) s, inr tt).

(** [db.session.commit()] *)
Definition commit (w : world) : M unit :=
  storage_op w ;;
  fun s => ({| committed := working s; working := working s; ops := ops s |},
            inr tt).

(** [db.session.rollback()] *)
Definition rollback (s : session) : session :=
  {| committed := committed s; working := committed s; ops := ops s |}.

(** A raise that comes from the storage, at an operation where the world
    says it fails. *)
Definition storage_failure (w : world) (e : exn) : Prop :=
  e = OperationalError /\ exists k, storage_fault w k = true.

(** The session a request or a job starts with. *)
Definition open (db : tables) : session :=
  {| committed := db; working := db; ops := 0 |}.

End Session.

(** ** The background job *)

(** What an iteration of the loop over the sources ended with; [Failed] is
    the line [Error processing source ...] the job prints. *)
Inductive outcome :=
| Committed
| Failed (e : exn).

Module Job.
Import Session.
Local Open Scope session_scope.

(** The block under [if not existing_article] with the query before it.
    It is written twice in the job, for a feed article and for a page; the
    two differ in that the second passes no author and no published date,
    which a page's [article_data] does not have. *)
Definition store_article (w : world) (source : Source) (d : article_data)
  : M unit :=
  existing_article <- article_by_url w (ad_url d) ;;
  match existing_article with
  | Some _ => ret tt
  | None =>
      article <- add_article_flush w (ad_title d) (ad_content d) (ad_url d)
                   (ad_author d) (ad_published_date d) (src_id source) ;;
      for_each (ad_keywords d)
        (fun keyword_match =>
           add_article_keyword (art_id article)
                               (kw_id (keyword keyword_match))
                               (score keyword_match))
  end.

(** The body of [try:] for one source. *)
Definition scrape_source (w : world) (keywords : list Keyword)
           (source : Source) : M unit :=
  (if String.eqb (source_type source) "rss"
   then
     let articles_data :=
       ContentScraper.scrape_rss w (src_url source) keywords in
     for_each articles_data (store_article w source)
   else
     match ContentScraper.scrape_website w (src_url source) keywords with
     | Some article_data => store_article w source article_data
     | None => ret tt
     end) ;;
  set_last_scraped (src_id source) (utcnow w) ;;
  commit w.

(** One iteration: [try: ... except Exception: db.session.rollback()]. *)
Definition process_source (w : world) (keywords : list Keyword)
           (source : Source) (s : session) : session * outcome :=
  let s0 := {| committed := committed s; working := working s; ops := 0 |} in
  match scrape_source w keywords source s0 with
  | (s', inr _) => (s', Committed)
  | (s', inl e) => (rollback s', Failed e)
  end.

(** The loop over the sources; iteration [i] lives in world [env i]. *)
Fixpoint run_sources (env : nat -> world) (i : nat) (keywords : list Keyword)
         (sources : list Source) (s : session) : session * list outcome :=
  match sources with
  | [] => (s, [])
  | source :: rest =>
      let (s1, o) := process_source (env i) keywords source s in
      let (s2, os) := run_sources env (S i) keywords rest s1 in
      (s2, o :: os)
  end.

Definition active_sources (db : tables) : list Source :=
  filter src_active (sources_t db).

Definition active_keywords (db : tables) : list Keyword :=
  filter kw_active (keywords_t db).

(** [run_content_scraping()]: the database after the job, and what each
    iteration ended with. *)
Definition run_content_scraping (env : nat -> world) (db : tables)
  : tables * list outcome :=
  let sources := active_sources db in
  let keywords := active_keywords db in
  let (s, log) := run_sources env 0 keywords sources (open db) in
  (committed s, log).

End Job.

(** ** What an iteration leaves in the tables

    The tables after the blocks of the job when nothing raises, written
    without the session; the properties below relate the job to them. *)

Module Effect.

Definition new_article (source : Source) (d : article_data) (t : tables)
  : Article :=
  {| art_id := Tables.next_id (map art_id (articles_t t));
     art_title := ad_title d; art_content := ad_content d;
     art_url := ad_url d; art_author := ad_author d;
     art_published_date := ad_published_date d;
     art_source_id := src_id source |}.

Definition add_rows (article_id : nat) (ms : list keyword_match) (t : tables)
  : tables :=
  fold_left (fun t m => Tables.insert_article_keyword
                          article_id (kw_id (keyword m)) (score m) t)
            ms t.

(** An article and all its keyword rows, unless the url is there. *)
Definition stored (source : Source) (t : tables) (d : article_data) : tables :=
  match Tables.find_article (ad_url d) t with
  | Some _ => t
  | None =>
      let a := new_article source d t in
      add_rows (art_id a) (ad_keywords d) (Tables.insert_article a t)
  end.

(** The articles a source offers in a world. *)
Definition candidates (w : world) (keywords : list Keyword) (source : Source)
  : list article_data :=
  if String.eqb (source_type source) "rss"
  then ContentScraper.scrape_rss w (src_url source) keywords
  else match ContentScraper.scrape_website w (src_url source) keywords with
       | Some d => [d]
       | None => []
       end.

(** The whole unit of a source. *)
Definition unit_of (w : world) (keywords : list Keyword) (source : Source)
           (t : tables) : tables :=
  Tables.touch_source (src_id source) (utcnow w)
    (fold_left (stored source) (candidates w keywords source) t).

(** The tables after a run whose iterations ended as [log] says: the unit
    of every source that committed, nothing of the others. *)
Fixpoint replay (env : nat -> world) (i : nat) (keywords : list Keyword)
         (sources : list Source) (log : list outcome) (t : tables) : tables :=
  match sources, log with
  | source :: rest, o :: os =>
      replay env (S i) keywords rest os
        (match o with
         | Committed => unit_of (env i) keywords source t
         | Failed _ => t
         end)
  | _, _ => t
  end.

(** [a] is the row the job builds from [d] for [source]. *)
Definition row_of (source : Source) (d : article_data) (a : Article) : Prop :=
  art_title a = ad_title d /\ art_content a = ad_content d
  /\ art_url a = ad_url d /\ art_author a = ad_author d
  /\ art_published_date a = ad_published_date d
  /\ art_source_id a = src_id source.

(** Rows [na] that may follow the rows [old] under the uniqueness of the
    url: their urls differ from each other and from those of [old]. *)
Definition fresh_urls (old na : list Article) : Prop :=
  NoDup (map art_url na)
  /\ forall a, In a na -> ~ In (art_url a) (map art_url old).

Definition positive (r : ArticleKeyword) : Prop := (0 < relevance_score r)%Q.

(** [t'] is [t] with articles of new urls and rows of positive score
    appended, and the same keywords. *)
Definition grows (t t' : tables) : Prop :=
  keywords_t t' = keywords_t t
  /\ (exists na, articles_t t' = (articles_t t ++ na)%list
                 /\ fresh_urls (articles_t t) na)
  /\ (exists nk, article_keywords_t t' = (article_keywords_t t ++ nk)%list
                 /\ Forall positive nk).

(** Every match of [d] has a positive score. *)
Definition scored (d : article_data) : Prop :=
  Forall (fun m => (0 < score m)%Q) (ad_keywords d).



(** Two worlds in which the sources answer the same; the clock and the
    storage may differ. *)
Definition same_answers (w w' : world) : Prop :=
  (forall url, http_get w' url = http_get w url)
  /\ (forall url, feed_entries w' url = feed_entries w url)
  /\ (forall s, parsedate w' s = parsedate w s).

(** The storage works throughout the iteration. *)
Definition storage_works (w : world) : Prop :=
  forall k, storage_fault w k = false.

(** Every article the source offers has its url in the tables. *)
Definition covered (w : world) (keywords : list Keyword) (source : Source)
           (t : tables) : Prop :=
  forall d, In d (candidates w keywords source) ->
            In (ad_url d) (map art_url (articles_t t)).

(** The same source, but for its timestamp. *)
Definition same_source (a b : Source) : Prop :=
  src_id a = src_id b /\ src_url a = src_url b
  /\ source_type a = source_type b /\ src_active a = src_active b.

(** [last_scraped] of the source with this id; [None] without such a
    source. *)
Definition last_scraped_of (id : nat) (t : tables) : option (option Z) :=
  option_map last_scraped (Tables.source_by_id id t).

End Effect.

(** ** Starting a run

    The two places that start [run_content_scraping]: the interval job
    that [init_scheduler] registers and the thread that [manual_scrape]
    starts.  A state is the list of the runs that are executing. *)

Module Scheduler.

Inductive origin := Timer | Manual.

Definition origin_eqb (a b : origin) : bool :=
  match a, b with
  | Timer, Timer | Manual, Manual => true
  | _, _ => false
  end.

Inductive event :=
| TimerFires            (* the 4-hour interval elapsed *)
| ManualRequest         (* GET /scrape/manual *)
| RunEnds (o : origin). (* a run returned *)

(** [add_job] is called without [max_instances]; the scheduler's default
    is one running instance of a job. *)
Definition max_instances : nat := 1.

Definition instances (o : origin) (running : list origin) : nat :=
  List.length (filter (origin_eqb o) running).

Fixpoint remove_one (o : origin) (running : list origin) : list origin :=
  match running with
  | [] => []
  | r :: rest => if origin_eqb o r then rest else r :: remove_one o rest
  end.

Definition step (running : list origin) (e : event) : list origin :=
  match e with
  | TimerFires =>
      if instances Timer running <? max_instances
      then Timer :: running
      else running
  | ManualRequest => Manual :: running
  | RunEnds o => remove_one o running
  end.

Definition after (events : list event) : list origin :=
  fold_left step events [].

End Scheduler.


(** ** Concrete inputs

    The scenarios of the specification and the inputs the properties
    below are evaluated on. *)

Module Example.
Import Soup.

Definition kw_ai : Keyword :=
  {| kw_id := 1; term := "artificial intelligence"; kw_active := true |}.

Definition kw_python : Keyword :=
  {| kw_id := 2; term := "python"; kw_active := true |}.

Definition blog : Source :=
  {| src_id := 1; src_name := "ExampleBlog"; src_url := "https://blog.example/";
     source_type := "website"; src_active := true; last_scraped := None |}.

Definition feed : Source :=
  {| src_id := 2; src_name := "ExampleFeed";
     src_url := "https://feed.example/rss";
     source_type := "rss"; src_active := true; last_scraped := None |}.

Definition el (name : string) (contents : list node) : node :=
  Tag name no_attrs contents.

(** A page that names "artificial intelligence" three times in its
    article, and "python" in a script only. *)
Definition blog_page : node :=
  el "[document]"
    [ el "html"
        [ el "head"
            [ el "title" [NavigableString "ExampleBlog"];
              el "script" [NavigableString "var python = 1;"] ];
          el "body"
            [ el "article"
                [ NavigableString
                    "Artificial intelligence is transforming work. ";
                  el "b" [NavigableString "artificial intelligence"];
                  NavigableString " and ARTIFICIAL INTELLIGENCE." ] ] ] ].

(** A page that names "python" in its navigation, outside the title and
    the article. *)
Definition nav_page : node :=
  el "[document]"
    [ el "html"
        [ el "head" [ el "title" [NavigableString "Blog"] ];
          el "body"
            [ el "nav" [NavigableString "Python jobs"];
              el "article" [NavigableString "Hello world"] ] ] ].

Definition entry (title : string) (link : option string) : feed_entry :=
  {| e_title := Some title; e_description := Some "About Python.";
     e_summary := None; e_link := link; e_author := None;
     e_published := None |}.

Definition linked (n : string) : feed_entry :=
  entry ("Post " ++ n) (Some ("https://feed.example/" ++ n)).

(** A feed of fifteen entries that all match "python". *)
Definition feed15 : list feed_entry :=
  map linked [ "1"; "2"; "3"; "4"; "5"; "6"; "7"; "8"; "9"; "10";
               "11"; "12"; "13"; "14"; "15" ].

(** An entry without a link. *)
Definition linkless : feed_entry := entry "No link" None.

Definition no_fault : nat -> bool := fun _ => false.


Definition world_of (page : option node) (entries : option (list feed_entry))
           (now : Z) (fault : nat -> bool) : world :=
  {| http_get := fun _ => page;
     feed_entries := fun _ => entries;
     parsedate := fun _ => None;
     utcnow := now;
     storage_fault := fault |}.

Definition db_of (keywords : list Keyword) (sources : list Source)
           (articles : list Article) : tables :=
  {| keywords_t := keywords; sources_t := sources;
     articles_t := articles; article_keywords_t := [] |}.

(** The blog and the feed, both answering, the storage working. *)
Definition fine : nat -> world :=
  fun i => world_of (Some blog_page) (Some feed15) (1700000000 + Z.of_nat i)
                    no_fault.

Definition db0 : tables := db_of [kw_ai; kw_python] [blog; feed] [].

(** An article stored from a link-less entry. *)
Definition old_linkless : Article :=
  {| art_id := 1; art_title := "Old"; art_content := "About Python.";
     art_url := EmptyString; art_author := None; art_published_date := None;
     art_source_id := 2 |}.

End Example.

(** ** The request handlers that change the tables

    [add_keyword], [toggle_keyword], [add_source] and [toggle_source], each
    in the session of its request.  A flashed message is kept by its kind
    and the name it shows. *)

Module Routes.
Import Session PyStr.
Local Open Scope session_scope.

Inductive flash :=
| KeywordAdded (shown : string)
| KeywordExists (shown : string)
| KeywordToggled (shown : string) (active : bool)
| SourceAdded (shown : string)
| SourceExists (shown : string)
| SourceToggled (shown : string) (active : bool).

(** What a handler answers: the redirect with what it flashed, or the 404
    of [get_or_404]. *)
Inductive response :=
| Redirect (flashes : list flash)
| NotFound.

(** [request.form.get(name, '')] *)
Definition form_get (field : option string) : string :=
  match field with
  | Some v => v
  | None => EmptyString
  end.

Definition term_is (t : string) (k : Keyword) : bool := String.eqb (term k) t.

Definition source_url_is (url : string) (src : Source) : bool :=
  String.eqb (src_url src) url.

(** [Keyword.query.filter_by(term=t).first()] *)
Definition keyword_by_term (w : world) (t : string) : M (option Keyword) :=
  storage_op w ;;
  fun s => (s, inr (List.find (term_is t) (keywords_t (working s)))).

(** [Keyword.query.get_or_404(id)], the 404 as [None] *)
Definition keyword_by_id (w : world) (id : nat) : M (option Keyword) :=
  storage_op w ;;
  fun s => (s, inr (List.find (fun k => kw_id k =? id)
                              (keywords_t (working s)))).

(** [Source.query.filter_by(url=url).first()] *)
Definition source_by_url (w : world) (url : string) : M (option Source) :=
  storage_op w ;;
  fun s => (s, inr (List.find (source_url_is url) (sources_t (working s)))).

(** [Source.query.get_or_404(id)], the 404 as [None] *)
Definition source_by_id (w : world) (id : nat) : M (option Source) :=
  storage_op w ;;
  fun s => (s, inr (Tables.source_by_id id (working s))).

(** The row of [Keyword(term=t)]: active by default. *)
Definition insert_keyword (t : string) (tb : tables) : tables :=
  {| keywords_t :=
       keywords_t tb
       ++ [ {| kw_id := Tables.next_id (map kw_id (keywords_t tb));
               term := t; kw_active := true |} ];
     sources_t := sources_t tb;
     articles_t := articles_t tb;
     article_keywords_t := article_keywords_t tb |}.

(** The row of [Source(name=..., url=..., source_type=...)]. *)
Definition insert_source (name url type : string) (tb : tables) : tables :=
  {| keywords_t := keywords_t tb;
     sources_t :=
       sources_t tb
       ++ [ {| src_id := Tables.next_id (map src_id (sources_t tb));
               src_name := name; src_url := url; source_type := type;
               src_active := true; last_scraped := None |} ];
     articles_t := articles_t tb;
     article_keywords_t := article_keywords_t tb |}.

Definition set_active_k (id : nat) (a : bool) (k : Keyword) : Keyword :=
  if kw_id k =? id
  then {| kw_id := kw_id k; term := term k; kw_active := a |}
  else k.

Definition set_active_s (id : nat) (a : bool) (src : Source) : Source :=
  if src_id src =? id
  then {| src_id := src_id src; src_name := src_name src;
          src_url := src_url src; source_type := source_type src;
          src_active := a; last_scraped := last_scraped src |}
  else src.

(** [db.session.add(keyword); db.session.commit()]: the row is written
    under the UNIQUE constraint on the term, and committed. *)
Definition add_keyword_commit (w : world) (t : string) : M unit :=
  storage_op w ;;
  fun s =>
    if existsb (term_is t) (keywords_t (working s))
    then (s, inl IntegrityError)
    else
      let tb := insert_keyword t (working s) in
      ({| committed := tb; working := tb; ops := ops s |}, inr tt).

(** [db.session.add(source); db.session.commit()]; the url of a source
    has no constraint. *)
Definition add_source_commit (w : world) (name url type : string) : M unit :=
  storage_op w ;;
  fun s =>
    let tb := insert_source name url type (working s) in
    ({| committed := tb; working := tb; ops := ops s |}, inr tt).

(** [keyword.active = a] *)
Definition set_keyword_active (id : nat) (a : bool) : M unit :=
  fun s =>
    let tb := working s in
    (set_working {| keywords_t := map (set_active_k id a) (keywords_t tb);
                    sources_t := sources_t tb;
                    articles_t := articles_t tb;
                    article_keywords_t := article_keywords_t tb |} s,
     inr tt).

(** [source.active = a] *)
Definition set_source_active (id : nat) (a : bool) : M unit :=
  fun s =>
    let tb := working s in
    (set_working {| keywords_t := keywords_t tb;
                    sources_t := map (set_active_s id a) (sources_t tb);
                    articles_t := articles_t tb;
                    article_keywords_t := article_keywords_t tb |} s,
     inr tt).

Definition add_keyword (w : world) (form_term : option string) : M response :=
  let t := strip (form_get form_term) in
  if truthy t then
    existing_keyword <- keyword_by_term w (lower t) ;;
    match existing_keyword with
    | None =>
        add_keyword_commit w (lower t) ;;
        ret (Redirect [KeywordAdded t])
    | Some _ => ret (Redirect [KeywordExists t])
    end
  else ret (Redirect []).

(** After the commit the attributes of the row are read again for the
    message, which is one more round trip. *)
Definition toggle_keyword (w : world) (keyword_id : nat) : M response :=
  found <- keyword_by_id w keyword_id ;;
  match found with
  | None => ret NotFound
  | Some k =>
      set_keyword_active keyword_id (negb (kw_active k)) ;;
      commit w ;;
      storage_op w ;;
      ret (Redirect [KeywordToggled (term k) (negb (kw_active k))])
  end.

(** [source_type] is the form's [source_type], [website] when the form
    has none. *)
Definition add_source (w : world) (form_name form_url form_type : option string)
  : M response :=
  let name := strip (form_get form_name) in
  let url := strip (form_get form_url) in
  let type := match form_type with
              | Some v => v
              | None => "website"
              end in
  if truthy name && truthy url then
    existing_source <- source_by_url w url ;;
    match existing_source with
    | None =>
        add_source_commit w name url type ;;
        ret (Redirect [SourceAdded name])
    | Some _ => ret (Redirect [SourceExists url])
    end
  else ret (Redirect []).

Definition toggle_source (w : world) (source_id : nat) : M response :=
  found <- source_by_id w source_id ;;
  match found with
  | None => ret NotFound
  | Some src =>
      set_source_active source_id (negb (src_active src)) ;;
      commit w ;;
      storage_op w ;;
      ret (Redirect [SourceToggled (src_name src) (negb (src_active src))])
  end.

(** A request against the database: what the database holds afterwards,
    and the answer, [None] for the error page of an uncaught exception.
    What the session did not commit goes with the session. *)
Definition serve (handler : M response) (db : tables)
  : tables * option response :=
  match handler (open db) with
  | (s, inr r) => (committed s, Some r)
  | (s, inl _) => (committed s, None)
  end.

End Routes.

(** ** The default data of the main program *)

Module Seed.
Import Session.
Local Open Scope session_scope.

Definition default_keywords : list string :=
  [ "artificial intelligence"; "machine learning"; "technology";
    "programming"; "python" ].

(** Name, url and type of the default sources. *)
Definition default_sources : list (string * string * string) :=
  [ ("Hacker News RSS", "https://hnrss.org/frontpage", "rss");
    ("Reddit Technology RSS", "https://www.reddit.com/r/technology/.rss",
     "rss");
    ("ArXiv CS RSS", "https://rss.arxiv.org/rss/cs", "rss") ].

(** The tables with the default rows added, in the order of the two
    loops. *)
Definition with_defaults (tb : tables) : tables :=
  fold_left (fun t d => match d with
                        | (name, url, type) =>
                            Routes.insert_source name url type t
                        end)
            default_sources
            (fold_left (fun t k => Routes.insert_keyword k t)
                       default_keywords tb).

(** The block under [if not Keyword.query.first()], with its commit.  The
    keywords table is empty where the rows are written, so the UNIQUE
    constraint on the term has nothing to refuse. *)
Definition seed (w : world) : M unit :=
  storage_op w ;;
  fun s =>
    match keywords_t (working s) with
    | _ :: _ => (s, inr tt)
    | [] =>
        (storage_op w ;;
         fun s1 =>
           let tb := with_defaults (working s1) in
           ({| committed := tb; working := tb; ops := ops s1 |}, inr tt)) s
    end.

(** The database after the start of the program. *)
Definition started (w : world) (db : tables) : tables :=
  committed (fst (seed w (open db))).

End Seed.

(** Induction over a page: a tag has the property when its children
    have. *)
Fixpoint node_induction (P : Soup.node -> Prop)
         (Hstring : forall s, P (Soup.NavigableString s))
         (Htag : forall nm a cs, Forall P cs -> P (Soup.Tag nm a cs))
         (n : Soup.node) : P n :=
  match n with
  | Soup.NavigableString s => Hstring s
  | Soup.Tag nm a cs =>
      Htag nm a cs
        ((fix all (l : list Soup.node) : Forall P l :=
            match l with
            | [] => Forall_nil P
            | c :: l' =>
                Forall_cons c (node_induction P Hstring Htag c) (all l')
            end) cs)
  end.

(** ** Conditions on the tables and on what the scraper returns *)

Module Invariant.

(** No whitespace at either end. *)
Definition stripped (s : string) : Prop := PyStr.strip s = s.

(** The primary keys are distinct and the foreign keys point to rows. *)
Definition consistent (t : tables) : Prop :=
  NoDup (map art_id (articles_t t))
  /\ NoDup (map ak_id (article_keywords_t t))
  /\ (forall r, In r (article_keywords_t t) ->
                In (ak_article_id r) (map art_id (articles_t t))
                /\ In (ak_keyword_id r) (map kw_id (keywords_t t)))
  /\ (forall a, In a (articles_t t) ->
                In (art_source_id a) (map src_id (sources_t t))).

(** The matches of [d] are those of some text against [keywords], and
    there is at least one. *)
Definition matched (keywords : list Keyword) (d : article_data) : Prop :=
  ad_keywords d <> []
  /\ exists content,
       ad_keywords d = Matcher.check_keyword_matches content keywords.

(** Every article has a keyword row, so that the join of the index page
    shows it. *)
Definition tagged (t : tables) : Prop :=
  forall a, In a (articles_t t) ->
            exists r, In r (article_keywords_t t)
                      /\ ak_article_id r = art_id a.

(** The terms are distinct and in lower case. *)
Definition terms_normal (t : tables) : Prop :=
  NoDup (map term (keywords_t t))
  /\ forall k, In k (keywords_t t) -> PyStr.lower (term k) = term k.

(** The tables with the keywords of this id set active or not. *)
Definition with_keyword_active (id : nat) (a : bool) (t : tables) : tables :=
  {| keywords_t := map (Routes.set_active_k id a) (keywords_t t);
     sources_t := sources_t t;
     articles_t := articles_t t;
     article_keywords_t := article_keywords_t t |}.

(** The tables with the sources of this id set active or not. *)
Definition with_source_active (id : nat) (a : bool) (t : tables) : tables :=
  {| keywords_t := keywords_t t;
     sources_t := map (Routes.set_active_s id a) (sources_t t);
     articles_t := articles_t t;
     article_keywords_t := article_keywords_t t |}.

(** The number of manual requests among the events. *)
Definition manual_requests (events : list Scheduler.event) : nat :=
  List.length (filter (fun e => match e with
                                | Scheduler.ManualRequest => true
                                | _ => false
                                end) events).

End Invariant.

(** More concrete inputs. *)

Module Sample.
Import Example.


(** A source that is switched off. *)
Definition archive : Source :=
  {| src_id := 3; src_name := "Archive"; src_url := "https://old.example/";
     source_type := "website"; src_active := false;
     last_scraped := Some 1600000000%Z |}.

(** The article of the blog, stored by an earlier run. *)
Definition blog_article : Article :=
  {| art_id := 1; art_title := "ExampleBlog"; art_content := "Old text";
     art_url := "https://blog.example/"; art_author := None;
     art_published_date := None; art_source_id := 1 |}.

Definition db_archive : tables :=
  db_of [kw_ai; kw_python] [blog; archive; feed] [].

Definition works : world := fine 0.

End Sample.
(* ================================================================== *)
(** * Properties *)

(** ** Strings *)

Section StringFacts.
Import PyStr CaseInsensitive.

Lemma length_lower (s : string) : length (lower s) = length s.
Proof. induction s as [|c s IH]; simpl; congruence. Qed.

Lemma prefix_ci_lower (sub s : string) :
  prefix_ci sub s = prefix (lower sub) (lower s).
Proof.
  revert s; induction sub as [|a sub IH]; intros [|b s]; simpl; trivial.
  unfold eqb_ci. rewrite IH.
  destruct (Ascii.eqb_spec (lower_char a) (lower_char b)) as [E|E];
    destruct (ascii_dec (lower_char a) (lower_char b)); simpl; congruence.
Qed.

Lemma occurrences_from_lower (sub : string) (s : string) (skip : nat) :
  occurrences_from sub skip s = count_from (lower sub) skip (lower s).
Proof.
  revert skip; induction s as [|c s IH]; intros skip; trivial.
  cbn [occurrences_from lower count_from].
  destruct skip as [|k]; [|apply IH].
  change (String (lower_char c) (lower s)) with (lower (String c s)).
  rewrite <- prefix_ci_lower, length_lower, !IH. reflexivity.
Qed.

(** The count the code takes on the lowered strings is the number of
    case-insensitive occurrences. *)
Lemma count_lower (sub s : string) :
  count (lower s) (lower sub) = occurrences_ci sub s.
Proof.
  destruct sub as [|a sub]; simpl.
  - now rewrite length_lower.
  - symmetry. apply (occurrences_from_lower (String a sub)).
Qed.

Lemma prefix_empty (s : string) : prefix EmptyString s = true.
Proof. now destruct s. Qed.

(** [sub in s] holds exactly when [s.count(sub)] is at least one. *)
Lemma contains_count (s sub : string) :
  contains s sub = true <-> 1 <= count s sub.
Proof.
  destruct sub as [|a sub].
  - simpl. split; [lia|]. intros _. destruct s; reflexivity.
  - unfold count. induction s as [|c s IH].
    + simpl. split; [discriminate | lia].
    + cbn [contains count_from].
      destruct (prefix (String a sub) (String c s)); [split; [lia | trivial]|].
      exact IH.
Qed.

Lemma contains_false_count (s sub : string) :
  contains s sub = false <-> count s sub = 0.
Proof.
  pose proof (contains_count s sub) as H.
  destruct (contains s sub); split; intros E; try discriminate; trivial.
  - destruct H as [H _]. specialize (H eq_refl). lia.
  - destruct (count s sub); [trivial|]. destruct H as [_ H].
    assert (true = false) by (symmetry; apply H; lia). discriminate.
Qed.

End StringFacts.

(** ** The matcher *)

Section MatcherFacts.
Import PyStr CaseInsensitive Matcher.

Variable content : string.

(** The result is the list of the keywords found, each with its score, in
    the order of the keywords. *)
Lemma check_keyword_matches_filter (keywords : list Keyword) :
  check_keyword_matches content keywords
  = map (match_for content) (filter (hit content) keywords).
Proof.
  induction keywords as [|k ks IH]; simpl; trivial.
  fold (hit content k). destruct (hit content k); simpl; rewrite IH; trivial.
  unfold match_for. now rewrite count_lower.
Qed.

Lemma keyword_of_matches (keywords : list Keyword) :
  map keyword (check_keyword_matches content keywords) = filter (hit content) keywords.
Proof.
  rewrite check_keyword_matches_filter, map_map. simpl. apply map_id.
Qed.




Lemma score_positive (c : nat) : 1 <= c -> (0 < relevance c)%Q.
Proof.
  intros H. unfold relevance.
  apply Q.min_glb_lt; [|reflexivity].
  unfold Qlt; simpl. lia.
Qed.

End MatcherFacts.


(** ** The session *)

Section SessionFacts.
Import Session Job Effect.
Local Open Scope session_scope.

Variable w : world.

Lemma storage_op_run (s s' : session) (r : exn + unit) :
  storage_op w s = (s', r) ->
  committed s' = committed s /\ working s' = working s
  /\ match r with inr _ => True | inl e => storage_failure w e end.
Proof.
  unfold storage_op. destruct (storage_fault w (ops s)) eqn:F;
    intros [= <- <-]; simpl; repeat split; trivial. now exists (ops s).
Qed.

Lemma set_working_twice (t t' : tables) (s : session) :
  set_working t (set_working t' s) = set_working t s.
Proof. reflexivity. Qed.

Lemma set_working_same (s : session) : set_working (working s) s = s.
Proof. now destruct s. Qed.

Lemma add_rows_run (id : nat) (ms : list keyword_match) (s : session) :
  for_each ms (fun m => add_article_keyword id (kw_id (keyword m)) (score m)) s
  = (set_working (add_rows id ms (working s)) s, inr tt).
Proof.
  revert s; induction ms as [|m ms IH]; intros s.
  - simpl. unfold ret. now rewrite set_working_same.
  - cbn [for_each]. unfold bind at 1. unfold add_article_keyword at 1.
    rewrite IH. reflexivity.
Qed.

Lemma find_none_existsb (url : string) (l : list Article) :
  find (Tables.url_is url) l = None -> existsb (Tables.url_is url) l = false.
Proof.
  induction l as [|a l IH]; simpl; trivial.
  destruct (Tables.url_is url a); [discriminate | exact IH].
Qed.

Lemma store_article_run (source : Source) (d : article_data)
      (s s' : session) (r : exn + unit) :
  store_article w source d s = (s', r) ->
  committed s' = committed s
  /\ match r with
     | inr _ => working s' = stored source (working s) d
     | inl e => storage_failure w e
     end.
Proof.
  unfold store_article, article_by_url, bind at 1 2.
  destruct (storage_op w s) as [s1 [e|[]]] eqn:E1;
    apply storage_op_run in E1; destruct E1 as (C1 & W1 & F1).
  { intros [= <- <-]. now split. }
  unfold stored, Tables.find_article. rewrite <- W1.
  destruct (find (Tables.url_is (ad_url d)) (articles_t (working s1))) eqn:Q.
  { unfold ret. intros [= <- <-]. now split. }
  unfold add_article_flush, bind at 1 2.
  destruct (storage_op w s1) as [s2 [e|[]]] eqn:E2;
    apply storage_op_run in E2; destruct E2 as (C2 & W2 & F2).
  { intros [= <- <-]. split; [congruence | trivial]. }
  rewrite W2, (find_none_existsb _ _ Q), add_rows_run.
  intros [= <- <-]. simpl. split; [congruence | reflexivity].
Qed.

Lemma store_all_run (source : Source) (ds : list article_data)
      (s s' : session) (r : exn + unit) :
  for_each ds (store_article w source) s = (s', r) ->
  committed s' = committed s
  /\ match r with
     | inr _ => working s' = fold_left (stored source) ds (working s)
     | inl e => storage_failure w e
     end.
Proof.
  revert s; induction ds as [|d ds IH]; intros s.
  - simpl. unfold ret. intros [= <- <-]. now split.
  - cbn [for_each fold_left]. unfold bind at 1.
    destruct (store_article w source d s) as [s1 [e|[]]] eqn:E1;
      apply store_article_run in E1; destruct E1 as (C1 & R1).
    + intros [= <- <-]. now split.
    + intros E. apply IH in E. destruct E as (C & R).
      split; [congruence|]. destruct r; [trivial|]. now rewrite <- R1.
Qed.

Variable keywords : list Keyword.

Lemma scrape_source_run (source : Source) (s s' : session) (r : exn + unit) :
  scrape_source w keywords source s = (s', r) ->
  match r with
  | inr _ => committed s' = unit_of w keywords source (working s)
             /\ working s' = committed s'
  | inl e => committed s' = committed s /\ storage_failure w e
  end.
Proof.
  unfold scrape_source. unfold bind at 1.
  set (block := if (source_type source =? "rss")%string then _ else _).
  assert (B : forall s0 s1 r1, block s0 = (s1, r1) ->
              committed s1 = committed s0
              /\ match r1 with
                 | inr _ => working s1
                            = fold_left (stored source)
                                (candidates w keywords source) (working s0)
                 | inl e => storage_failure w e
                 end).
  { subst block. unfold candidates.
    destruct (source_type source =? "rss")%string.
    - intros s0 s1 r1. apply store_all_run.
    - destruct (ContentScraper.scrape_website w (src_url source) keywords).
      + intros s0 s1 r1 E. apply store_article_run in E. exact E.
      + unfold ret. intros s0 s1 r1 [= <- <-]. now split. }
  destruct (block s) as [s1 [e|[]]] eqn:E1;
    apply B in E1; destruct E1 as (C1 & R1).
  { intros [= <- <-]. now split. }
  unfold bind at 1, set_last_scraped at 1, commit, bind.
  destruct (storage_op w _) as [s2 [e|[]]] eqn:E2;
    apply storage_op_run in E2; destruct E2 as (C2 & W2 & F2);
    simpl in C2, W2; intros [= <- <-]; simpl.
  - split; [congruence | trivial].
  - split; [|trivial]. unfold unit_of. now rewrite W2, R1.
Qed.

Lemma process_source_run (source : Source) (s s' : session) (o : outcome) :
  working s = committed s ->
  process_source w keywords source s = (s', o) ->
  working s' = committed s'
  /\ match o with
     | Committed => committed s' = unit_of w keywords source (committed s)
     | Failed e => committed s' = committed s /\ storage_failure w e
     end.
Proof.
  intros Hclean. unfold process_source.
  destruct (scrape_source w keywords source _) as [s1 [e|[]]] eqn:E;
    apply scrape_source_run in E; simpl in E; intros [= <- <-]; simpl.
  - tauto.
  - destruct E as (C & W). rewrite Hclean in C. now split.
Qed.

End SessionFacts.

(** ** The loop over the sources *)

Section LoopFacts.
Import Session Job Effect.

Variable env : nat -> world.
Variable keywords : list Keyword.

(** The job against the tables: every source gets its iteration, the
    session is clean between iterations, and the database holds the units
    of the sources that committed and nothing of the others. *)
Lemma run_sources_run (sources : list Source) :
  forall (i : nat) (s s' : session) (log : list outcome),
  working s = committed s ->
  run_sources env i keywords sources s = (s', log) ->
  working s' = committed s'
  /\ List.length log = List.length sources
  /\ committed s' = replay env i keywords sources log (committed s)
  /\ (forall k e, nth_error log k = Some (Failed e) ->
                  storage_failure (env (i + k)) e).
Proof.
  induction sources as [|source rest IH]; intros i s s' log Hclean.
  - simpl. intros [= <- <-]. split; [|split; [|split]]; trivial.
    intros [|k] e; discriminate.
  - cbn [run_sources].
    destruct (process_source (env i) keywords source s) as [s1 o] eqn:E1.
    destruct (run_sources env (S i) keywords rest s1) as [s2 os] eqn:E2.
    intros [= <- <-].
    apply process_source_run in E1; [|exact Hclean].
    destruct E1 as (Hclean1 & R1).
    apply IH in E2; [|exact Hclean1].
    destruct E2 as (Hclean2 & Hlen & Hrep & Hfail).
    split; [exact Hclean2|]. split; [simpl; congruence|]. split.
    + cbn [replay]. rewrite Hrep. destruct o; [now rewrite R1|].
      destruct R1 as [-> _]. reflexivity.
    + intros [|k] e'; simpl.
      * intros [= ->]. rewrite Nat.add_0_r. apply R1.
      * intros H. apply Hfail in H.
        now replace (i + S k) with (S i + k) by lia.
Qed.

End LoopFacts.

(** ** What the units leave in the tables *)

Section EffectFacts.
Import Effect.
Local Open Scope list_scope.

Lemma fresh_urls_nil (old : list Article) : fresh_urls old [].
Proof. split; [constructor | intros a []]. Qed.

Lemma fresh_urls_app (old na nb : list Article) :
  fresh_urls old na -> fresh_urls (old ++ na) nb -> fresh_urls old (na ++ nb).
Proof.
  intros [Na Fa] [Nb Fb]. split.
  - rewrite map_app. apply NoDup_app; [exact Na | exact Nb |].
    intros u Hu Hu'. apply in_map_iff in Hu'. destruct Hu' as (b & <- & Hb).
    apply (Fb b Hb). rewrite map_app. apply in_or_app. now right.
  - intros a Ha. apply in_app_or in Ha. destruct Ha as [Ha|Ha].
    + now apply Fa.
    + intros Hin. apply (Fb a Ha). rewrite map_app. apply in_or_app.
      now left.
Qed.

Lemma fresh_urls_nodup (old na : list Article) :
  NoDup (map art_url old) -> fresh_urls old na ->
  NoDup (map art_url (old ++ na)).
Proof.
  intros No [Na Fa]. rewrite map_app. apply NoDup_app; [exact No | exact Na |].
  intros u Hu Hu'. apply in_map_iff in Hu'. destruct Hu' as (a & <- & Ha).
  now apply (Fa a Ha).
Qed.

Lemma grows_refl (t : tables) : grows t t.
Proof.
  split; [reflexivity|]. split.
  - exists []. split; [now rewrite app_nil_r | apply fresh_urls_nil].
  - exists []. split; [now rewrite app_nil_r | constructor].
Qed.

Lemma grows_trans (t1 t2 t3 : tables) :
  grows t1 t2 -> grows t2 t3 -> grows t1 t3.
Proof.
  intros (K1 & (na & A1 & F1) & (nk & R1 & P1))
         (K2 & (nb & A2 & F2) & (nl & R2 & P2)).
  split; [congruence|]. split.
  - exists (na ++ nb). split; [now rewrite A2, A1, app_assoc|].
    apply fresh_urls_app; [exact F1 | now rewrite <- A1].
  - exists (nk ++ nl). split; [now rewrite R2, R1, app_assoc|].
    apply Forall_app. now split.
Qed.

Lemma find_article_none (url : string) (t : tables) :
  Tables.find_article url t = None ->
  ~ In url (map art_url (articles_t t)).
Proof.
  unfold Tables.find_article. intros H Hin.
  apply in_map_iff in Hin. destruct Hin as (a & <- & Ha).
  apply (find_none _ _ H) in Ha. unfold Tables.url_is in Ha.
  now rewrite String.eqb_refl in Ha.
Qed.

Lemma find_article_some (url : string) (t : tables) (a : Article) :
  Tables.find_article url t = Some a ->
  In a (articles_t t) /\ art_url a = url.
Proof.
  unfold Tables.find_article. intros H. apply find_some in H.
  destruct H as [Ha E]. split; [exact Ha|]. now apply String.eqb_eq.
Qed.

(** The keyword rows of an article: one per match, with its score. *)
Lemma add_rows_shape (id : nat) (ms : list keyword_match) (t : tables) :
  keywords_t (add_rows id ms t) = keywords_t t
  /\ sources_t (add_rows id ms t) = sources_t t
  /\ articles_t (add_rows id ms t) = articles_t t
  /\ exists nk,
       article_keywords_t (add_rows id ms t) = article_keywords_t t ++ nk
       /\ map relevance_score nk = map score ms
       /\ map ak_keyword_id nk = map (fun m => kw_id (keyword m)) ms
       /\ Forall (fun r => ak_article_id r = id) nk.
Proof.
  unfold add_rows. revert t; induction ms as [|m ms IH]; intros t.
  - simpl. repeat split. exists []. rewrite app_nil_r. now repeat split.
  - cbn [fold_left].
    destruct (IH (Tables.insert_article_keyword id (kw_id (keyword m))
                                               (score m) t))
      as (K & S & A & nk & R & Sc & Kw & Ids).
    split; [exact K|]. split; [exact S|]. split; [exact A|].
    eexists (_ :: nk). split; [rewrite R; simpl; now rewrite <- app_assoc|].
    simpl. rewrite Sc, Kw. repeat split. now constructor.
Qed.

Variable source : Source.

Lemma stored_shape (t : tables) (d : article_data) :
  keywords_t (stored source t d) = keywords_t t
  /\ sources_t (stored source t d) = sources_t t
  /\ (exists na, articles_t (stored source t d) = articles_t t ++ na
                 /\ fresh_urls (articles_t t) na
                 /\ Forall (row_of source d) na)
  /\ (exists nk, article_keywords_t (stored source t d)
                 = article_keywords_t t ++ nk
                 /\ Forall (fun r => In (relevance_score r)
                                        (map score (ad_keywords d))) nk).
Proof.
  unfold stored. destruct (Tables.find_article (ad_url d) t) eqn:Q.
  - repeat split.
    + exists []. rewrite app_nil_r. split; [trivial|].
      split; [apply fresh_urls_nil | constructor].
    + exists []. rewrite app_nil_r. split; [trivial | constructor].
  - apply find_article_none in Q.
    destruct (add_rows_shape (art_id (new_article source d t)) (ad_keywords d)
                (Tables.insert_article (new_article source d t) t))
      as (K & S & A & nk & R & Sc & _ & _).
    split; [exact K|]. split; [exact S|]. split.
    + exists [new_article source d t]. split; [exact A|]. split.
      * split; [repeat constructor; intros []|].
        intros a [<-|[]]. exact Q.
      * repeat constructor.
    + exists nk. split; [exact R|]. rewrite <- Sc.
      apply Forall_forall. intros r Hr. now apply in_map.
Qed.

Lemma stored_all_shape (ds : list article_data) :
  forall t : tables,
  let t' := fold_left (stored source) ds t in
  keywords_t t' = keywords_t t
  /\ sources_t t' = sources_t t
  /\ (exists na, articles_t t' = articles_t t ++ na
                 /\ fresh_urls (articles_t t) na
                 /\ Forall (fun a => exists d, In d ds /\ row_of source d a) na)
  /\ (exists nk, article_keywords_t t' = article_keywords_t t ++ nk
                 /\ Forall (fun r => exists d, In d ds
                                     /\ In (relevance_score r)
                                           (map score (ad_keywords d))) nk).
Proof.
  induction ds as [|d ds IH]; intros t; cbn [fold_left].
  - repeat split.
    + exists []. rewrite app_nil_r. split; [trivial|].
      split; [apply fresh_urls_nil | constructor].
    + exists []. rewrite app_nil_r. split; [trivial | constructor].
  - destruct (stored_shape t d) as (K1 & S1 & (na & A1 & F1 & P1)
                                    & (nk & R1 & Q1)).
    destruct (IH (stored source t d)) as (K2 & S2 & (nb & A2 & F2 & P2)
                                          & (nl & R2 & Q2)).
    split; [congruence|]. split; [congruence|]. split.
    + exists (na ++ nb). split; [now rewrite A2, A1, app_assoc|].
      split; [apply fresh_urls_app; [exact F1 | now rewrite <- A1]|].
      apply Forall_app. split.
      * eapply Forall_impl; [|exact P1]. intros a Ha. exists d.
        split; [now left | exact Ha].
      * eapply Forall_impl; [|exact P2]. intros a (d' & Hd & Ha).
        exists d'. split; [now right | exact Ha].
    + exists (nk ++ nl). split; [now rewrite R2, R1, app_assoc|].
      apply Forall_app. split.
      * eapply Forall_impl; [|exact Q1]. intros r Hr. exists d.
        split; [now left | exact Hr].
      * eapply Forall_impl; [|exact Q2]. intros r (d' & Hd & Hr).
        exists d'. split; [now right | exact Hr].
Qed.

End EffectFacts.

(** ** Scores of what the scraper returns *)

Section ScoreFacts.
Import Effect.

Lemma matches_positive (content : string) (keywords : list Keyword) :
  Forall (fun m => (0 < score m)%Q)
         (Matcher.check_keyword_matches content keywords).
Proof.
  rewrite check_keyword_matches_filter. apply Forall_forall.
  intros m Hm. apply in_map_iff in Hm. destruct Hm as (k & <- & Hk).
  apply filter_In in Hk. destruct Hk as [_ Hk]. simpl.
  apply score_positive. rewrite <- count_lower. now apply contains_count.
Qed.

Variable w : world.
Variable keywords : list Keyword.

Lemma scrape_website_scored (url : string) (d : article_data) :
  ContentScraper.scrape_website w url keywords = Some d -> scored d.
Proof.
  unfold ContentScraper.scrape_website.
  destruct (http_get w url) as [page|]; [|discriminate].
  set (ms := Matcher.check_keyword_matches _ keywords).
  pose proof (matches_positive
                (Soup.get_text (Soup.decompose_all ["script"; "style"] page))
                keywords) as P.
  fold ms in P. destruct ms; [discriminate|].
  intros [= <-]. exact P.
Qed.

Lemma scrape_entry_scored (entry : feed_entry) (d : article_data) :
  In d (ContentScraper.scrape_entry w keywords entry) -> scored d.
Proof.
  unfold ContentScraper.scrape_entry.
  pose proof (matches_positive
                (ContentScraper.entry_title entry ++ " "
                 ++ ContentScraper.entry_content entry) keywords) as P.
  fold (ContentScraper.entry_matches keywords entry) in P.
  destruct (ContentScraper.entry_matches keywords entry); [intros []|].
  intros [<-|[]]. exact P.
Qed.

Lemma candidates_scored (source : Source) :
  Forall scored (candidates w keywords source).
Proof.
  unfold candidates. destruct (source_type source =? "rss")%string.
  - unfold ContentScraper.scrape_rss.
    destruct (feed_entries w (src_url source)); [|constructor].
    apply Forall_forall. intros d Hd. apply in_flat_map in Hd.
    destruct Hd as (entry & _ & Hd). now apply scrape_entry_scored in Hd.
  - destruct (ContentScraper.scrape_website w (src_url source) keywords)
      eqn:E; [|constructor].
    repeat constructor. now apply scrape_website_scored in E.
Qed.

Lemma unit_of_grows (source : Source) (t : tables) :
  grows t (unit_of w keywords source t).
Proof.
  unfold unit_of.
  destruct (stored_all_shape source (candidates w keywords source) t)
    as (K & _ & (na & A & F & _) & (nk & R & Q)).
  split; [exact K|]. split.
  - exists na. now split.
  - exists nk. split; [exact R|].
    eapply Forall_impl; [|exact Q]. intros r (d & Hd & Hr).
    pose proof (candidates_scored source) as Sc.
    rewrite Forall_forall in Sc. specialize (Sc d Hd).
    unfold scored in Sc. rewrite Forall_forall in Sc.
    apply in_map_iff in Hr. destruct Hr as (m & E & Hm).
    unfold positive. rewrite <- E. now apply Sc.
Qed.

End ScoreFacts.

Lemma replay_grows (env : nat -> world) (keywords : list Keyword)
      (sources : list Source) :
  forall (i : nat) (log : list outcome) (t : tables),
  Effect.grows t (Effect.replay env i keywords sources log t).
Proof.
  induction sources as [|source rest IH]; intros i log t.
  - apply grows_refl.
  - destruct log as [|o os]; [apply grows_refl|]. cbn [Effect.replay].
    eapply grows_trans; [|apply IH].
    destruct o; [apply unit_of_grows | apply grows_refl].
Qed.

(** ** Whole articles *)

Section WholeArticles.
Import Effect.
Local Open Scope list_scope.

Variable source : Source.




End WholeArticles.

(** ** The job as a whole *)

Section JobFacts.
Import Session Job Effect.
Local Open Scope list_scope.

Lemma run_content_scraping_run (env : nat -> world) (db : tables) :
  let db' := fst (run_content_scraping env db) in
  let log := snd (run_content_scraping env db) in
  db' = replay env 0 (active_keywords db) (active_sources db) log db
  /\ List.length log = List.length (active_sources db)
  /\ (forall k e, nth_error log k = Some (Failed e) ->
                  storage_failure (env k) e).
Proof.
  unfold run_content_scraping.
  destruct (run_sources env 0 (active_keywords db) (active_sources db)
                        (open db)) as [s log] eqn:E.
  apply run_sources_run in E; [|reflexivity].
  destruct E as (_ & Hlen & Hrep & Hfail). simpl. auto.
Qed.

Lemma run_grows (env : nat -> world) (db : tables) :
  grows db (fst (run_content_scraping env db)).
Proof.
  destruct (run_content_scraping_run env db) as (E & _). rewrite E.
  apply replay_grows.
Qed.

Lemma run_never_integrity_error (env : nat -> world) (db : tables) :
  ~ In (Failed IntegrityError) (snd (run_content_scraping env db)).
Proof.
  destruct (run_content_scraping_run env db) as (_ & _ & F).
  intros Hin. apply In_nth_error in Hin. destruct Hin as [k Hk].
  apply F in Hk. destruct Hk as [Hk _]. discriminate.
Qed.

Lemma filter_fresh (url : string) (old na : list Article) :
  In url (map art_url old) -> fresh_urls old na ->
  filter (Tables.url_is url) (old ++ na) = filter (Tables.url_is url) old.
Proof.
  intros Hin [_ F]. rewrite filter_app.
  replace (filter (Tables.url_is url) na) with (@nil Article);
    [apply app_nil_r|].
  symmetry. induction na as [|a na IH]; simpl; trivial.
  unfold Tables.url_is at 1.
  destruct (String.eqb_spec (art_url a) url) as [E|_].
  - exfalso. apply (F a); [now left | now rewrite E].
  - apply IH. intros b Hb. apply F. now right.
Qed.

End JobFacts.

(** ** A run after a run *)

Section Rerun.
Import Job Effect.
Local Open Scope list_scope.

Variable keywords : list Keyword.

Lemma stored_urls (source : Source) (t : tables) (d : article_data) :
  In (ad_url d) (map art_url (articles_t (stored source t d)))
  /\ forall u, In u (map art_url (articles_t t)) ->
               In u (map art_url (articles_t (stored source t d))).
Proof.
  unfold stored. destruct (Tables.find_article (ad_url d) t) as [a|] eqn:Q.
  - split; [|trivial]. apply find_article_some in Q.
    destruct Q as [Ha <-]. now apply in_map.
  - destruct (add_rows_shape (art_id (new_article source d t)) (ad_keywords d)
                (Tables.insert_article (new_article source d t) t))
      as (_ & _ & -> & _).
    simpl. rewrite map_app. split.
    + apply in_or_app. right. now left.
    + intros u Hu. apply in_or_app. now left.
Qed.

Lemma stored_all_urls (source : Source) (ds : list article_data) :
  forall t : tables,
  (forall d, In d ds ->
             In (ad_url d)
                (map art_url (articles_t (fold_left (stored source) ds t))))
  /\ forall u, In u (map art_url (articles_t t)) ->
               In u (map art_url
                       (articles_t (fold_left (stored source) ds t))).
Proof.
  induction ds as [|d ds IH]; intros t; cbn [fold_left].
  - split; [intros d [] | trivial].
  - destruct (IH (stored source t d)) as [Hds Hmono].
    destruct (stored_urls source t d) as [Hd Hold]. split.
    + intros d' [<-|Hd']; [now apply Hmono | now apply Hds].
    + intros u Hu. now apply Hmono, Hold.
Qed.

Lemma unit_of_covered (w : world) (source : Source) (t : tables) :
  covered w keywords source (unit_of w keywords source t).
Proof.
  intros d Hd. unfold unit_of. simpl.
  now apply (proj1 (stored_all_urls source (candidates w keywords source) t)).
Qed.

Lemma covered_grows (w : world) (source : Source) (t t' : tables) :
  grows t t' -> covered w keywords source t -> covered w keywords source t'.
Proof.
  intros (_ & (na & A & _) & _) H d Hd. rewrite A, map_app.
  apply in_or_app. left. now apply H.
Qed.

Lemma stored_known (source : Source) (t : tables) (d : article_data) :
  In (ad_url d) (map art_url (articles_t t)) -> stored source t d = t.
Proof.
  intros Hin. unfold stored.
  destruct (Tables.find_article (ad_url d) t) eqn:Q; [reflexivity|].
  now apply find_article_none in Q.
Qed.

Lemma stored_all_known (source : Source) (ds : list article_data)
      (t : tables) :
  (forall d, In d ds -> In (ad_url d) (map art_url (articles_t t))) ->
  fold_left (stored source) ds t = t.
Proof.
  induction ds as [|d ds IH]; intros H; cbn [fold_left]; trivial.
  rewrite stored_known; [|apply H; now left].
  apply IH. intros d' Hd'. apply H. now right.
Qed.

(** The unit of a source whose articles are all known adds no row. *)
Lemma unit_of_known (w : world) (source : Source) (t : tables) :
  covered w keywords source t ->
  articles_t (unit_of w keywords source t) = articles_t t
  /\ article_keywords_t (unit_of w keywords source t) = article_keywords_t t.
Proof.
  intros H. unfold unit_of. rewrite stored_all_known; [now split | exact H].
Qed.

Lemma candidates_same_answers (w w' : world) (source : Source) :
  same_answers w w' ->
  candidates w' keywords source = candidates w keywords source.
Proof.
  intros (Hget & Hfeed & Hdate). unfold candidates.
  destruct (source_type source =? "rss")%string.
  - unfold ContentScraper.scrape_rss. rewrite Hfeed.
    destruct (feed_entries w (src_url source)) as [entries|]; [|reflexivity].
    apply flat_map_ext. intros entry. unfold ContentScraper.scrape_entry.
    destruct (ContentScraper.entry_matches keywords entry); [reflexivity|].
    unfold ContentScraper.parse_date.
    destruct (e_published entry) as [p|]; [|reflexivity].
    destruct (PyStr.truthy p); [now rewrite Hdate | reflexivity].
  - unfold ContentScraper.scrape_website. now rewrite Hget.
Qed.

Lemma candidates_same_source (w : world) (a b : Source) :
  same_source a b -> candidates w keywords a = candidates w keywords b.
Proof.
  intros (_ & Hu & Ht & _). unfold candidates. now rewrite Hu, Ht.
Qed.

Lemma same_source_touch (id : nat) (now : Z) (a : Source) :
  same_source a (Tables.touch id now a).
Proof.
  unfold Tables.touch. destruct (src_id a =? id); now repeat split.
Qed.

Lemma same_sources_trans (l1 l2 l3 : list Source) :
  Forall2 same_source l1 l2 -> Forall2 same_source l2 l3 ->
  Forall2 same_source l1 l3.
Proof.
  intros H; revert l3; induction H as [|a b l1 l2 Hab _ IH]; intros l3 H3;
    inversion H3; subst; constructor.
  - destruct Hab as (? & ? & ? & ?).
    match goal with H : same_source b _ |- _ => destruct H as (? & ? & ? & ?) end.
    repeat split; congruence.
  - now apply IH.
Qed.

Lemma same_sources_refl (l : list Source) : Forall2 same_source l l.
Proof. induction l; constructor; [now repeat split | trivial]. Qed.

Lemma same_sources_unit_of (w : world) (source : Source) (t : tables) :
  Forall2 same_source (sources_t t) (sources_t (unit_of w keywords source t)).
Proof.
  unfold unit_of. simpl.
  destruct (stored_all_shape source (candidates w keywords source) t)
    as (_ & -> & _).
  induction (sources_t t); simpl; constructor; trivial.
  apply same_source_touch.
Qed.

Lemma same_sources_replay (env : nat -> world) (sources : list Source) :
  forall (i : nat) (log : list outcome) (t : tables),
  Forall2 same_source (sources_t t)
          (sources_t (replay env i keywords sources log t)).
Proof.
  induction sources as [|x rest IH]; intros i log t.
  - apply same_sources_refl.
  - destruct log as [|o os]; [apply same_sources_refl|]. cbn [replay].
    eapply same_sources_trans; [|apply IH].
    destruct o; [apply same_sources_unit_of | apply same_sources_refl].
Qed.

Lemma same_sources_active (l l' : list Source) :
  Forall2 same_source l l' ->
  Forall2 same_source (filter src_active l) (filter src_active l').
Proof.
  induction 1 as [|a b l l' Hab _ IH]; simpl; [constructor|].
  pose proof Hab as (_ & _ & _ & Hact). rewrite <- Hact.
  destruct (src_active a); [constructor|]; trivial.
Qed.

(** After a run whose iterations all committed, the tables hold the url
    of every article every source offered. *)
Lemma replay_covered (env : nat -> world) (sources : list Source) :
  forall (i : nat) (log : list outcome) (t : tables),
  Forall (fun o => o = Committed) log ->
  List.length log = List.length sources ->
  forall k source,
    nth_error sources k = Some source ->
    covered (env (i + k)) keywords source
            (replay env i keywords sources log t).
Proof.
  induction sources as [|x rest IH]; intros i log t Hall Hlen k source Hk.
  - destruct k; discriminate.
  - destruct log as [|o os]; [discriminate|]. injection Hlen as Hlen.
    inversion Hall as [|? ? -> Hall']; subst. cbn [replay].
    destruct k as [|k]; simpl in Hk.
    + injection Hk as ->. rewrite Nat.add_0_r.
      eapply covered_grows; [apply replay_grows | apply unit_of_covered].
    + replace (i + S k) with (S i + k) by lia. now apply IH.
Qed.

(** A run over sources whose articles are all known adds no row. *)
Lemma replay_known (env env' : nat -> world) (sources sources' : list Source) :
  Forall2 same_source sources sources' ->
  forall (i : nat) (log : list outcome) (urls : list string) (t : tables),
  (forall k, same_answers (env (i + k)) (env' (i + k))) ->
  (forall k source d,
      nth_error sources k = Some source ->
      In d (candidates (env (i + k)) keywords source) -> In (ad_url d) urls) ->
  map art_url (articles_t t) = urls ->
  articles_t (replay env' i keywords sources' log t) = articles_t t
  /\ article_keywords_t (replay env' i keywords sources' log t)
     = article_keywords_t t.
Proof.
  induction 1 as [|x x' rest rest' Hx _ IH]; intros i log urls t Hsame Hcov Hu.
  - now split.
  - destruct log as [|o os]; [now split|]. cbn [replay].
    assert (K : covered (env' i) keywords x' t).
    { intros d Hd. rewrite Hu.
      apply (Hcov 0 x d eq_refl). rewrite Nat.add_0_r.
      rewrite <- (candidates_same_source _ x x' Hx) in Hd.
      specialize (Hsame 0). rewrite Nat.add_0_r in Hsame.
      now rewrite (candidates_same_answers _ _ x Hsame) in Hd. }
    destruct (unit_of_known (env' i) x' t K) as [A R].
    set (t1 := match o with
               | Committed => unit_of (env' i) keywords x' t
               | Failed _ => t
               end).
    assert (E : articles_t t1 = articles_t t
                /\ article_keywords_t t1 = article_keywords_t t).
    { subst t1. destruct o; [now split | now split]. }
    destruct E as [A1 R1].
    destruct (IH (S i) os urls t1) as [A2 R2].
    + intros k. replace (S i + k) with (i + S k) by lia. apply Hsame.
    + intros k source d Hk. replace (S i + k) with (i + S k) by lia.
      now apply (Hcov (S k)).
    + now rewrite A1.
    + split; congruence.
Qed.

End Rerun.

(** The second of two runs against sources that answer the same adds no
    article and no keyword row when the storage worked in the first. *)
Lemma rerun_adds_nothing (env1 env2 : nat -> world) (db : tables) :
  (forall i, Effect.storage_works (env1 i)) ->
  (forall i, Effect.same_answers (env1 i) (env2 i)) ->
  let db1 := fst (Job.run_content_scraping env1 db) in
  let db2 := fst (Job.run_content_scraping env2 db1) in
  articles_t db2 = articles_t db1
  /\ article_keywords_t db2 = article_keywords_t db1.
Proof.
  intros Hworks Hsame db1 db2.
  destruct (run_content_scraping_run env1 db) as (E1 & Hlen1 & Hfail1).
  destruct (run_content_scraping_run env2 db1) as (E2 & _ & _).
  fold db1 in E1. fold db2 in E2.
  set (log1 := snd (Job.run_content_scraping env1 db)) in *.
  assert (Hall : Forall (fun o => o = Committed) log1).
  { apply Forall_forall. intros o Ho. destruct o as [|e]; [reflexivity|].
    apply In_nth_error in Ho. destruct Ho as [k Hk].
    apply Hfail1 in Hk. destruct Hk as (_ & n & Hn).
    now rewrite (Hworks k n) in Hn. }
  assert (Hkw : Job.active_keywords db1 = Job.active_keywords db).
  { unfold Job.active_keywords.
    destruct (run_grows env1 db) as (K & _). fold db1 in K. now rewrite K. }
  assert (Hsrc : Forall2 Effect.same_source (Job.active_sources db) (Job.active_sources db1)).
  { apply same_sources_active. rewrite E1. apply same_sources_replay. }
  rewrite E2, Hkw.
  apply (replay_known (Job.active_keywords db) env1 env2 (Job.active_sources db) (Job.active_sources db1) Hsrc
           0 _ (map art_url (articles_t db1)) db1).
  - intros k. apply Hsame.
  - intros k source d Hk Hd. rewrite E1.
    exact (replay_covered (Job.active_keywords db) env1 (Job.active_sources db) 0 log1 db Hall Hlen1
             k source Hk d Hd).
  - reflexivity.
Qed.

(** C2.  A second run of the job inserts no article for a url the
    database holds after the first run, whatever the sources return: the
    articles of the first run stay as they are, those the second run adds
    have other urls, no two rows share a url, and since the url is looked
    up before the insert the UNIQUE constraint never fires.  When the
    sources answer as in the first run and the storage worked in the
    first run, the second run inserts nothing at all. *)
Theorem rerun_skips_known_urls (env1 env2 : nat -> world) (db : tables) :
  NoDup (map art_url (articles_t db)) ->
  let db1 := fst (Job.run_content_scraping env1 db) in
  let second := Job.run_content_scraping env2 db1 in
  NoDup (map art_url (articles_t (fst second)))
  /\ (exists new,
        articles_t (fst second) = (articles_t db1 ++ new)%list
        /\ forall a, In a new ->
                     ~ In (art_url a) (map art_url (articles_t db1)))
  /\ ~ In (Failed IntegrityError) (snd second)
  /\ ((forall i, Effect.storage_works (env1 i)) ->
      (forall i, Effect.same_answers (env1 i) (env2 i)) ->
      articles_t (fst second) = articles_t db1
      /\ article_keywords_t (fst second) = article_keywords_t db1).
Proof.
  intros Hnd db1 second.
  destruct (run_grows env1 db) as (_ & (na & A1 & F1) & _).
  destruct (run_grows env2 db1) as (_ & (nb & A2 & F2) & _).
  fold db1 in A1. fold second in A2.
  assert (Hnd1 : NoDup (map art_url (articles_t db1))).
  { rewrite A1. now apply fresh_urls_nodup. }
  split; [|split; [|split]].
  - rewrite A2. now apply fresh_urls_nodup.
  - exists nb. split; [exact A2 | apply F2].
  - apply run_never_integrity_error.
  - intros Hworks Hsame. now apply rerun_adds_nothing.
Qed.

(** C8.  The keyword rows a run adds all have a score above zero. *)
Theorem persisted_scores_positive (env : nat -> world) (db : tables) :
  exists rows,
    article_keywords_t (fst (Job.run_content_scraping env db))
    = (article_keywords_t db ++ rows)%list
    /\ Forall (fun r => (0 < relevance_score r)%Q) rows.
Proof.
  destruct (run_grows env db) as (_ & _ & (nk & R & P)).
  exists nk. split; [exact R | exact P].
Qed.

(** C10.  A feed entry without a link gives an article whose url is the
    empty string; once the database holds an article with the empty url,
    storing such an article is skipped, and a run leaves the articles of
    empty url as they were. *)
Theorem linkless_entries_collide
  (w : world) (keywords : list Keyword) (entry : feed_entry) (db : tables) :
  e_link entry = None ->
  In EmptyString (map art_url (articles_t db)) ->
  (forall d, In d (ContentScraper.scrape_entry w keywords entry) ->
             ad_url d = EmptyString)
  /\ (forall d source s,
        In d (ContentScraper.scrape_entry w keywords entry) ->
        working s = db ->
        working (fst (Job.store_article w source d s)) = db)
  /\ (forall env,
        filter (Tables.url_is EmptyString)
               (articles_t (fst (Job.run_content_scraping env db)))
        = filter (Tables.url_is EmptyString) (articles_t db)).
Proof.
  intros Hlink Hin.
  assert (U : forall d, In d (ContentScraper.scrape_entry w keywords entry) ->
                        ad_url d = EmptyString).
  { unfold ContentScraper.scrape_entry. intros d.
    destruct (ContentScraper.entry_matches keywords entry); [intros []|].
    intros [<-|[]]. simpl. now rewrite Hlink. }
  split; [exact U|]. split.
  - intros d source s Hd <-.
    unfold Job.store_article, Session.article_by_url.
    unfold Session.bind at 1 2.
    destruct (Session.storage_op w s) as [s1 [e|[]]] eqn:E1;
      apply storage_op_run in E1; destruct E1 as (_ & W1 & _);
      [exact W1|].
    rewrite (U d Hd). unfold Tables.find_article.
    destruct (find (Tables.url_is EmptyString) (articles_t (working s1)))
      eqn:Q; [exact W1|].
    exfalso. apply (find_article_none EmptyString (working s1) Q).
    now rewrite W1.
  - intros env. destruct (run_grows env db) as (_ & (na & A & F) & _).
    rewrite A. now apply filter_fresh.
Qed.


(** ** The timestamp of a source *)

Section LastScraped.
Import Effect.
Local Open Scope list_scope.

Lemma find_map_stable {A} (p : A -> bool) (f : A -> A) (l : list A) :
  (forall x, p (f x) = p x) ->
  find p (map f l) = option_map f (find p l).
Proof.
  intros H. induction l as [|x l IH]; simpl; trivial.
  rewrite H. now destruct (p x).
Qed.

Lemma src_id_touch (id : nat) (now : Z) (src : Source) :
  src_id (Tables.touch id now src) = src_id src.
Proof. unfold Tables.touch. now destruct (src_id src =? id). Qed.

Lemma source_by_id_touch (id id' : nat) (now : Z) (t : tables) :
  Tables.source_by_id id (Tables.touch_source id' now t)
  = option_map (Tables.touch id' now) (Tables.source_by_id id t).
Proof.
  unfold Tables.source_by_id. simpl. apply find_map_stable.
  intros x. now rewrite src_id_touch.
Qed.

Lemma source_by_id_id (id : nat) (t : tables) (x : Source) :
  Tables.source_by_id id t = Some x -> src_id x = id.
Proof.
  unfold Tables.source_by_id. intros H. apply find_some in H.
  now apply Nat.eqb_eq.
Qed.

Lemma source_by_id_unique (t : tables) (x : Source) :
  NoDup (map src_id (sources_t t)) -> In x (sources_t t) ->
  Tables.source_by_id (src_id x) t = Some x.
Proof.
  unfold Tables.source_by_id. induction (sources_t t) as [|y l IH]; simpl.
  - intros _ [].
  - intros Hnd [->|Hin].
    + now rewrite Nat.eqb_refl.
    + inversion Hnd as [|? ? Hy Hl]; subst.
      destruct (Nat.eqb_spec (src_id y) (src_id x)) as [E|_]; [|now apply IH].
      exfalso. apply Hy. rewrite E. now apply in_map.
Qed.

Variable env : nat -> world.
Variable keywords : list Keyword.

Lemma source_by_id_unit_of (id : nat) (w : world) (source : Source)
      (t : tables) :
  Tables.source_by_id id (unit_of w keywords source t)
  = option_map (Tables.touch (src_id source) (utcnow w))
               (Tables.source_by_id id t).
Proof.
  unfold unit_of. rewrite source_by_id_touch. f_equal.
  destruct (stored_all_shape source (candidates w keywords source) t)
    as (_ & S & _).
  unfold Tables.source_by_id. now rewrite S.
Qed.

(** A unit of another source leaves the row as it is. *)
Lemma source_by_id_other (w : world) (source : Source) (t : tables)
      (x : Source) :
  src_id x <> src_id source ->
  Tables.source_by_id (src_id x) t = Some x ->
  Tables.source_by_id (src_id x) (unit_of w keywords source t) = Some x.
Proof.
  intros Hne H. rewrite source_by_id_unit_of, H. simpl.
  unfold Tables.touch. now destruct (Nat.eqb_spec (src_id x) (src_id source)).
Qed.

Lemma replay_other (sources : list Source) (x : Source) :
  forall (i : nat) (log : list outcome) (t : tables),
  ~ In (src_id x) (map src_id sources) ->
  Tables.source_by_id (src_id x) t = Some x ->
  Tables.source_by_id (src_id x) (replay env i keywords sources log t)
  = Some x.
Proof.
  induction sources as [|source rest IH]; intros i log t Hnot H; trivial.
  destruct log as [|o os]; trivial. cbn [replay].
  apply IH; [intros Hin; apply Hnot; now right|].
  destruct o; [|exact H].
  apply source_by_id_other; [|exact H].
  intros E. apply Hnot. left. now symmetry.
Qed.



End LastScraped.


(** ** The scraper *)

Section ScraperFacts.
Import PyStr ContentScraper Effect.
Local Open Scope list_scope.




Variable w : world.
Variable keywords : list Keyword.

Lemma scrape_website_some (url : string) (d : article_data) :
  scrape_website w url keywords = Some d ->
  exists page,
    http_get w url = Some page
    /\ let soup := Soup.decompose_all ["script"; "style"] page in
       ad_keywords d = Matcher.check_keyword_matches (Soup.get_text soup)
                                                     keywords
       /\ ad_keywords d <> []
       /\ ad_content d = slice_to content_cap (extract_article_content soup)
       /\ ad_url d = url.
Proof.
  unfold scrape_website. destruct (http_get w url) as [page|]; [|discriminate].
  destruct (Matcher.check_keyword_matches _ keywords) as [|m ms] eqn:M;
    [discriminate|].
  intros [= <-]. exists page. simpl. rewrite M. now repeat split.
Qed.

Lemma scrape_entry_some (entry : feed_entry) (d : article_data) :
  In d (scrape_entry w keywords entry) ->
  entry_matches keywords entry <> []
  /\ ad_keywords d = entry_matches keywords entry
  /\ ad_title d = entry_title entry
  /\ ad_content d = slice_to content_cap (entry_content entry)
  /\ ad_url d = get_or_empty (e_link entry).
Proof.
  unfold scrape_entry.
  destruct (entry_matches keywords entry) as [|m ms]; [intros []|].
  intros [<-|[]]. simpl. now repeat split.
Qed.

Lemma firstn_nth_error {A} (n : nat) (l : list A) (x : A) :
  In x (firstn n l) -> exists k, k < n /\ nth_error l k = Some x.
Proof.
  revert l; induction n as [|n IH]; intros [|y l]; simpl; try tauto.
  intros [->|Hin].
  - exists 0. split; [lia | reflexivity].
  - destruct (IH l Hin) as (k & Hk & E). exists (S k). split; [lia | exact E].
Qed.

Lemma length_flat_map_le {A B} (f : A -> list B) (l : list A) :
  (forall x, List.length (f x) <= 1) ->
  List.length (flat_map f l) <= List.length l.
Proof.
  intros H. induction l as [|x l IH]; simpl; trivial.
  rewrite length_app. specialize (H x). lia.
Qed.

Lemma scrape_entry_le_one (entry : feed_entry) :
  List.length (scrape_entry w keywords entry) <= 1.
Proof.
  unfold scrape_entry. destruct (entry_matches keywords entry); simpl; lia.
Qed.

(** The articles an iteration adds are rows of its candidates. *)
Lemma process_source_new (source : Source) (s : session) :
  working s = committed s ->
  exists na,
    articles_t (committed (fst (Job.process_source w keywords source s)))
    = articles_t (committed s) ++ na
    /\ Forall (fun a => exists d, In d (candidates w keywords source)
                                  /\ row_of source d a) na.
Proof.
  intros Hclean.
  destruct (Job.process_source w keywords source s) as [s1 o] eqn:E.
  apply process_source_run in E; [|exact Hclean]. destruct E as (_ & R).
  simpl. destruct o.
  - rewrite R. unfold unit_of. simpl.
    destruct (stored_all_shape source (candidates w keywords source)
                               (committed s)) as (_ & _ & (na & A & _ & P) & _).
    exists na. now split.
  - destruct R as [-> _]. exists []. now rewrite app_nil_r.
Qed.

End ScraperFacts.


(** C9.  Of a feed, the first ten entries are read, in feed order: the
    scrape returns at most ten articles, and every article the iteration
    stores comes from one of the first ten entries, one that matches a
    keyword. *)
Theorem feed_first_ten
  (w : world) (keywords : list Keyword) (source : Source)
  (entries : list feed_entry) (s : session) :
  source_type source = "rss" ->
  feed_entries w (src_url source) = Some entries ->
  working s = committed s ->
  ContentScraper.scrape_rss w (src_url source) keywords
  = flat_map (ContentScraper.scrape_entry w keywords) (firstn 10 entries)
  /\ List.length (ContentScraper.scrape_rss w (src_url source) keywords) <= 10
  /\ exists new,
       articles_t (committed (fst (Job.process_source w keywords source s)))
       = (articles_t (committed s) ++ new)%list
       /\ Forall
            (fun a =>
               exists k entry,
                 k < 10 /\ nth_error entries k = Some entry
                 /\ ContentScraper.entry_matches keywords entry <> []
                 /\ art_title a = ContentScraper.entry_title entry
                 /\ art_url a
                    = ContentScraper.get_or_empty (e_link entry))
            new.
Proof.
  intros Hrss Hfeed Hclean.
  assert (E : ContentScraper.scrape_rss w (src_url source) keywords
              = flat_map (ContentScraper.scrape_entry w keywords)
                         (firstn 10 entries)).
  { unfold ContentScraper.scrape_rss. now rewrite Hfeed. }
  split; [exact E|]. split.
  - rewrite E.
    etransitivity; [apply length_flat_map_le, scrape_entry_le_one|].
    apply firstn_le_length.
  - destruct (process_source_new w keywords source s Hclean) as (na & A & P).
    exists na. split; [exact A|].
    eapply Forall_impl; [|exact P]. intros a (d & Hd & Hrow).
    unfold Effect.candidates in Hd. rewrite Hrss in Hd. simpl in Hd.
    rewrite E in Hd. apply in_flat_map in Hd.
    destruct Hd as (entry & He & Hd).
    apply firstn_nth_error in He. destruct He as (k & Hk & Hnth).
    apply scrape_entry_some in Hd. destruct Hd as (M & _ & T & _ & U).
    destruct Hrow as (Ht & _ & Hu & _).
    exists k, entry. repeat split; trivial; congruence.
Qed.

(** C3, as the code has it.  For a source that is not a feed the
    keywords are matched against the text of the whole page, not against
    the extracted title and body: an article is returned with the matches
    found in the page text, none is stored when the page text matches no
    keyword or the fetch fails, and every article stored has the url of
    the source and a page text that matches. *)
Theorem website_gate_is_page_text
  (w : world) (keywords : list Keyword) (source : Source) (s : session) :
  source_type source <> "rss" ->
  working s = committed s ->
  let url := src_url source in
  let s1 := fst (Job.process_source w keywords source s) in
  (forall d,
      ContentScraper.scrape_website w url keywords = Some d ->
      exists T, ContentScraper.page_text w url = Some T
                /\ ad_keywords d = Matcher.check_keyword_matches T keywords
                /\ ad_keywords d <> [])
  /\ ((forall T, ContentScraper.page_text w url = Some T ->
                 Matcher.check_keyword_matches T keywords = []) ->
      articles_t (committed s1) = articles_t (committed s))
  /\ exists new,
       articles_t (committed s1) = (articles_t (committed s) ++ new)%list
       /\ Forall
            (fun a =>
               art_url a = url
               /\ exists T, ContentScraper.page_text w url = Some T
                            /\ Matcher.check_keyword_matches T keywords <> [])
            new.
Proof.
  intros Hweb Hclean url s1.
  assert (G : forall d,
             ContentScraper.scrape_website w url keywords = Some d ->
             ad_url d = url
             /\ exists T, ContentScraper.page_text w url = Some T
                  /\ ad_keywords d = Matcher.check_keyword_matches T keywords
                  /\ ad_keywords d <> []).
  { intros d Hd. apply scrape_website_some in Hd.
    destruct Hd as (page & Hp & M & Hne & _ & U). split; [exact U|].
    unfold ContentScraper.page_text. rewrite Hp. simpl. eexists.
    split; [reflexivity|]. now split. }
  assert (C : Effect.candidates w keywords source
              = match ContentScraper.scrape_website w url keywords with
                | Some d => [d]
                | None => []
                end).
  { unfold Effect.candidates.
    destruct (String.eqb_spec (source_type source) "rss"); [contradiction|].
    reflexivity. }
  destruct (process_source_new w keywords source s Hclean) as (na & A & P).
  fold s1 in A. rewrite C in P.
  split; [|split].
  - intros d Hd. now apply G.
  - intros Hnone. rewrite A.
    destruct (ContentScraper.scrape_website w url keywords) as [d|] eqn:E.
    + destruct (G d eq_refl) as (_ & T & HT & M & Hne).
      rewrite (Hnone T HT) in M. contradiction.
    + destruct na as [|a na]; [now rewrite app_nil_r|].
      inversion P as [|? ? (d & [] & _) _].
  - exists na. split; [exact A|].
    eapply Forall_impl; [|exact P]. intros a (d & Hd & Hrow).
    destruct (ContentScraper.scrape_website w url keywords) as [d'|] eqn:E;
      [|destruct Hd].
    destruct Hd as [->|[]]. destruct (G d eq_refl) as (U & T & HT & M & Hne).
    destruct Hrow as (_ & _ & Hu & _). split; [congruence|].
    exists T. split; [exact HT|]. now rewrite <- M.
Qed.

(** ** Starting a run *)

Section SchedulerFacts.
Import Scheduler.

Lemma instances_remove_one (o o' : origin) (running : list origin) :
  instances o (remove_one o' running) <= instances o running.
Proof.
  unfold instances. induction running as [|r rest IH]; simpl; trivial.
  destruct (origin_eqb o' r); simpl.
  - destruct (origin_eqb o r); simpl; lia.
  - destruct (origin_eqb o r); simpl; lia.
Qed.

Lemma step_timer_bound (running : list origin) (e : event) :
  instances Timer running <= max_instances ->
  instances Timer (step running e) <= max_instances.
Proof.
  intros H. destruct e as [| |o]; simpl.
  - destruct (Nat.ltb_spec (instances Timer running) max_instances) as [L|_];
      [|exact H].
    unfold instances in *. simpl. unfold max_instances in *. lia.
  - exact H.
  - etransitivity; [apply instances_remove_one | exact H].
Qed.

Lemma steps_timer_bound (events : list event) :
  forall running,
  instances Timer running <= max_instances ->
  instances Timer (fold_left step events running) <= max_instances.
Proof.
  induction events as [|e events IH]; intros running H; simpl; trivial.
  apply IH. now apply step_timer_bound.
Qed.

End SchedulerFacts.

(** C4, as the code has it.  Of the runs the interval job starts, at most
    one executes at any instant.  A manual request is never dropped or
    held back: whatever is executing, it starts one more run at once. *)
Theorem manual_run_is_unguarded (events : list Scheduler.event) :
  Scheduler.instances Scheduler.Timer (Scheduler.after events) <= 1
  /\ Scheduler.after (events ++ [Scheduler.ManualRequest])
     = Scheduler.Manual :: Scheduler.after events.
Proof.
  split.
  - apply steps_timer_bound.
    unfold Scheduler.instances, Scheduler.max_instances. simpl. lia.
  - unfold Scheduler.after. now rewrite fold_left_app.
Qed.

(** ** The properties on concrete inputs *)

Import Example.


(** The blog and the feed scraped twice: the second run adds nothing. *)
Lemma rerun_skips_known_urls_witness :
  let db := db_of [kw_ai; kw_python] [blog; feed] [old_linkless] in
  NoDup (map art_url (articles_t db))
  /\ let db1 := fst (Job.run_content_scraping fine db) in
     let second := Job.run_content_scraping fine db1 in
     NoDup (map art_url (articles_t (fst second)))
     /\ articles_t (fst second) = articles_t db1
     /\ List.length (articles_t db1) = 12.
Proof.
  intros db.
  assert (Hnd : NoDup (map art_url (articles_t db)))
    by (simpl; repeat constructor; intros []).
  split; [exact Hnd|].
  destruct (rerun_skips_known_urls fine fine db Hnd) as (N & _ & _ & I).
  split; [exact N|]. split; [|vm_compute; reflexivity].
  apply I.
  - intros i k. reflexivity.
  - intros i. now repeat split.
Defined.

Lemma website_gate_is_page_text_witness :
  let s := Session.open (db_of [kw_ai] [blog] []) in
  let w := world_of (Some nav_page) None 1700000000 no_fault in
  source_type blog <> "rss"
  /\ working s = committed s
  /\ articles_t (committed (fst (Job.process_source w [kw_ai] blog s)))
     = articles_t (committed s).
Proof.
  intros s w.
  assert (Hweb : source_type blog <> "rss") by (simpl; discriminate).
  assert (Hclean : working s = committed s) by reflexivity.
  split; [exact Hweb | split; [exact Hclean|]].
  apply (proj1 (proj2 (website_gate_is_page_text w [kw_ai] blog s
                         Hweb Hclean))).
  intros T HT. vm_compute in HT. injection HT as <-. reflexivity.
Defined.




(** Fifteen entries that all match: the ten first are stored. *)
Lemma feed_first_ten_witness :
  let s := Session.open db0 in
  source_type feed = "rss"
  /\ feed_entries (fine 1) (src_url feed) = Some feed15
  /\ working s = committed s
  /\ List.length
       (ContentScraper.scrape_rss (fine 1) (src_url feed) [kw_ai; kw_python])
     <= 10.
Proof.
  intros s.
  assert (Hrss : source_type feed = "rss") by reflexivity.
  assert (Hfeed : feed_entries (fine 1) (src_url feed) = Some feed15)
    by reflexivity.
  assert (Hclean : working s = committed s) by reflexivity.
  split; [exact Hrss | split; [exact Hfeed | split; [exact Hclean|]]].
  exact (proj1 (proj2 (feed_first_ten (fine 1) [kw_ai; kw_python] feed feed15
                         s Hrss Hfeed Hclean))).
Defined.

Lemma linkless_entries_collide_witness :
  let db := db_of [kw_python] [feed] [old_linkless] in
  let env := fun _ : nat =>
               world_of None (Some [linkless]) 1700000000 no_fault in
  e_link linkless = None
  /\ In EmptyString (map art_url (articles_t db))
  /\ filter (Tables.url_is EmptyString)
            (articles_t (fst (Job.run_content_scraping env db)))
     = [old_linkless].
Proof.
  intros db env.
  assert (Hlink : e_link linkless = None) by reflexivity.
  assert (Hin : In EmptyString (map art_url (articles_t db)))
    by (simpl; now left).
  split; [exact Hlink | split; [exact Hin|]].
  exact (proj2 (proj2 (linkless_entries_collide (env 0) [kw_python] linkless
                         db Hlink Hin)) env).
Defined.

(** ** Where the code departs from the specification *)

(** C3.  The page names the keyword in its navigation only.  Its title
    and extracted body, taken together, match no keyword, and still the
    run stores an article for it, with a keyword row. *)
Lemma article_without_match_in_title_and_body :
  let db := db_of [kw_python] [blog] [] in
  let env := fun _ : nat =>
               world_of (Some nav_page) None 1700000000 no_fault in
  let db' := fst (Job.run_content_scraping env db) in
  map (fun a => (art_title a, art_content a)) (articles_t db')
  = [("Blog", "Hello world")]
  /\ Matcher.check_keyword_matches ("Blog" ++ " " ++ "Hello world")
                                   [kw_python] = []
  /\ map ak_keyword_id (article_keywords_t db') = [kw_id kw_python].
Proof. vm_compute. repeat split. Qed.

(** C4.  A manual request while the run of the interval job executes:
    two runs execute at the same time. *)
Lemma manual_run_overlaps_timer_run :
  ~ (List.length
       (Scheduler.after [Scheduler.TimerFires; Scheduler.ManualRequest])
     <= 1).
Proof. vm_compute. lia. Qed.


(* ================================================================== *)
(** * Further properties of the code *)

(** ** Lower case and stripping *)

Section MoreStringFacts.
Import PyStr.

Lemma lower_char_idempotent (c : ascii) :
  lower_char (lower_char c) = lower_char c.
Proof.
  destruct c as [[] [] [] [] [] [] [] []]; vm_compute; reflexivity.
Qed.

Lemma lower_idempotent (s : string) : lower (lower s) = lower s.
Proof.
  induction s as [|c s IH]; simpl; [reflexivity|].
  now rewrite lower_char_idempotent, IH.
Qed.

Lemma lower_app (a b : string) : lower (a ++ b) = lower a ++ lower b.
Proof. induction a as [|c a IH]; simpl; [reflexivity | now rewrite IH]. Qed.

Lemma prefix_app (sub a b : string) :
  prefix sub a = true -> prefix sub (a ++ b) = true.
Proof.
  revert a; induction sub as [|x sub IH]; intros [|y a]; simpl; trivial.
  - intros _. apply prefix_empty.
  - discriminate.
  - destruct (ascii_dec x y); [apply IH | discriminate].
Qed.

Lemma contains_app_l (a b sub : string) :
  contains a sub = true -> contains (a ++ b) sub = true.
Proof.
  induction a as [|c a IH].
  - destruct sub as [|x sub]; [destruct b; reflexivity | discriminate].
  - cbn [contains]. destruct (prefix sub (String c a)) eqn:P.
    + intros _. change (String c a ++ b) with (String c (a ++ b)) in *.
      pose proof (prefix_app sub (String c a) b P) as P'.
      change (String c a ++ b) with (String c (a ++ b)) in P'.
      cbn [contains]. now rewrite P'.
    + intros H. change (String c a ++ b) with (String c (a ++ b)).
      cbn [contains]. destruct (prefix sub (String c (a ++ b))); [reflexivity|].
      now apply IH.
Qed.

Lemma contains_app_r (a b sub : string) :
  contains b sub = true -> contains (a ++ b) sub = true.
Proof.
  intros H. induction a as [|c a IH]; [exact H|].
  change (String c a ++ b) with (String c (a ++ b)). cbn [contains].
  destruct (prefix sub (String c (a ++ b))); [reflexivity | exact IH].
Qed.

Lemma rstrip_cons (c : ascii) (s : string) :
  rstrip (String c s)
  = match rstrip s with
    | EmptyString => if is_space c then EmptyString else String c EmptyString
    | String _ _ as r => String c r
    end.
Proof. reflexivity. Qed.

Lemma rstrip_idempotent (s : string) : rstrip (rstrip s) = rstrip s.
Proof.
  induction s as [|c s IH]; [reflexivity|]. rewrite rstrip_cons.
  destruct (rstrip s) as [|c' r] eqn:R.
  - destruct (is_space c) eqn:Sp; [reflexivity|].
    rewrite rstrip_cons. simpl. now rewrite Sp.
  - rewrite rstrip_cons, IH. reflexivity.
Qed.

Lemma lstrip_rstrip (s : string) :
  lstrip s = s -> lstrip (rstrip s) = rstrip s.
Proof.
  destruct s as [|c s]; [reflexivity|]. rewrite rstrip_cons. cbn [lstrip].
  destruct (is_space c) eqn:Sp.
  - intros H. exfalso.
    assert (L : forall x, length (lstrip x) <= length x).
    { induction x as [|y x IHx]; simpl; [lia|].
      destruct (is_space y); simpl; lia. }
    specialize (L s). rewrite H in L. simpl in L. lia.
  - intros _. destruct (rstrip s); cbn [lstrip]; now rewrite Sp.
Qed.

Lemma lstrip_idempotent (s : string) : lstrip (lstrip s) = lstrip s.
Proof.
  induction s as [|c s IH]; [reflexivity|]. cbn [lstrip].
  destruct (is_space c) eqn:Sp; [exact IH|]. cbn [lstrip]. now rewrite Sp.
Qed.

Lemma strip_sides (s : string) :
  strip s = s <-> lstrip s = s /\ rstrip s = s.
Proof.
  unfold strip. split.
  - intros H. assert (L : lstrip s = s).
    { rewrite <- H at 1. rewrite lstrip_rstrip; [exact H|].
      apply lstrip_idempotent. }
    split; [exact L|]. now rewrite L in H.
  - intros [L R]. now rewrite L.
Qed.

Lemma strip_idempotent (s : string) : strip (strip s) = strip s.
Proof.
  apply strip_sides. unfold strip. split.
  - apply lstrip_rstrip, lstrip_idempotent.
  - apply rstrip_idempotent.
Qed.

Lemma append_empty_r (s : string) : s ++ EmptyString = s.
Proof. induction s as [|c s IH]; simpl; [reflexivity | now rewrite IH]. Qed.

Lemma rstrip_app (a b : string) :
  rstrip b = b -> b <> EmptyString -> rstrip (a ++ b) = a ++ b.
Proof.
  intros Hb Hne. induction a as [|c a IH]; [exact Hb|].
  change (String c a ++ b) with (String c (a ++ b)). rewrite rstrip_cons.
  rewrite IH. destruct (a ++ b) eqn:E; [|reflexivity].
  destruct a; simpl in E; [contradiction | discriminate].
Qed.

Lemma lstrip_app (a b : string) :
  lstrip a = a -> a <> EmptyString -> lstrip (a ++ b) = a ++ b.
Proof.
  destruct a as [|c a]; [contradiction|]. cbn [lstrip]. intros H _.
  change (String c a ++ b) with (String c (a ++ b)). cbn [lstrip].
  destruct (is_space c) eqn:Sp; [|reflexivity]. exfalso.
  assert (L : forall x, length (lstrip x) <= length x).
  { induction x as [|y x IHx]; simpl; [lia|].
    destruct (is_space y); simpl; lia. }
  specialize (L a). rewrite H in L. simpl in L. lia.
Qed.

(** Stripped strings put one after the other are a stripped string. *)
Lemma stripped_app (a b : string) :
  strip a = a -> strip b = b -> strip (a ++ b) = a ++ b.
Proof.
  intros Ha Hb. destruct a as [|c a]; [exact Hb|].
  destruct b as [|c' b]; [now rewrite append_empty_r|].
  apply strip_sides in Ha, Hb. destruct Ha as [La Ra], Hb as [Lb Rb].
  apply strip_sides. split.
  - now apply lstrip_app.
  - now apply rstrip_app.
Qed.

Lemma stripped_join (l : list string) :
  Forall (fun s => strip s = s) l -> strip (Soup.join l) = Soup.join l.
Proof.
  induction 1 as [|s l Hs _ IH]; [reflexivity|]. simpl.
  now apply stripped_app.
Qed.

Lemma get_text_strip_stripped (n : Soup.node) :
  strip (Soup.get_text_strip n) = Soup.get_text_strip n.
Proof.
  unfold Soup.get_text_strip. apply stripped_join.
  apply Forall_forall. intros s Hs. apply filter_In in Hs.
  destruct Hs as [Hs _]. apply in_map_iff in Hs.
  destruct Hs as (x & <- & _). apply strip_idempotent.
Qed.

End MoreStringFacts.

(** ** More on the matcher *)

Section MoreMatcherFacts.
Import PyStr Matcher.

Lemma relevance_bounds (c : nat) :
  1 <= c -> (1 # 10 <= relevance c)%Q /\ (relevance c <= 1)%Q.
Proof.
  intros H. unfold relevance. split.
  - apply Q.min_glb; [unfold Qle; simpl; lia | unfold Qle; simpl; lia].
  - apply Q.le_min_r.
Qed.

Lemma hit_lower (content : string) (k : Keyword) :
  hit (lower content) k = hit content k.
Proof. unfold hit. now rewrite lower_idempotent. Qed.

Lemma matches_by_lower (T T' : string) (keywords : list Keyword) :
  lower T = lower T' ->
  check_keyword_matches T keywords = check_keyword_matches T' keywords.
Proof.
  intros E. induction keywords as [|k ks IH]; simpl; [reflexivity|].
  now rewrite E, IH.
Qed.

End MoreMatcherFacts.

(** X1.  Every score the matcher returns lies between 0.1 and 1. *)
Theorem match_scores_bounded (content : string) (keywords : list Keyword) :
  Forall (fun m => (1 # 10 <= score m)%Q /\ (score m <= 1)%Q)
         (Matcher.check_keyword_matches content keywords).
Proof.
  rewrite check_keyword_matches_filter. apply Forall_forall.
  intros m Hm. apply in_map_iff in Hm. destruct Hm as (k & <- & Hk).
  apply filter_In in Hk. destruct Hk as [_ Hk]. simpl.
  apply relevance_bounds. rewrite <- count_lower. now apply contains_count.
Qed.

(** X2.  The matcher reads the content up to case: the content in lower
    case gives the same matches with the same scores, and so do two
    contents that differ in case only. *)
Theorem matches_ignore_case (T : string) (keywords : list Keyword) :
  Matcher.check_keyword_matches (PyStr.lower T) keywords
  = Matcher.check_keyword_matches T keywords
  /\ forall T', PyStr.lower T = PyStr.lower T' ->
                Matcher.check_keyword_matches T keywords
                = Matcher.check_keyword_matches T' keywords.
Proof.
  split.
  - apply matches_by_lower, lower_idempotent.
  - intros T'. apply matches_by_lower.
Qed.


(** X4.  A feed entry is matched on its title, its description and its
    summary: a keyword of the list found in one of them is among the
    matches of the entry. *)
Theorem entry_matched_on_each_field
  (keywords : list Keyword) (entry : feed_entry) (k : Keyword) :
  In k keywords ->
  Matcher.hit (ContentScraper.entry_title entry) k = true
  \/ Matcher.hit (ContentScraper.get_or_empty (e_description entry)) k = true
  \/ Matcher.hit (ContentScraper.get_or_empty (e_summary entry)) k = true ->
  In k (map keyword (ContentScraper.entry_matches keywords entry)).
Proof.
  intros Hin H. unfold ContentScraper.entry_matches.
  rewrite keyword_of_matches. apply filter_In. split; [exact Hin|].
  unfold Matcher.hit in *. unfold ContentScraper.entry_content.
  rewrite !lower_app. destruct H as [H|[H|H]].
  - now apply contains_app_l.
  - apply contains_app_r, contains_app_r. now apply contains_app_l.
  - now apply contains_app_r, contains_app_r, contains_app_r, contains_app_r.
Qed.

(** ** More on the page *)

Section MorePageFacts.
Import Soup.

Lemma decompose_tag (names : list string) (nm : string) (a : attrs)
      (cs : list node) :
  decompose_all names (Tag nm a cs)
  = Tag nm a (map (decompose_all names)
                  (filter (fun c => negb (tag_named names c)) cs)).
Proof.
  simpl. f_equal. induction cs as [|c cs IH]; simpl; [reflexivity|].
  destruct (tag_named names c); simpl; now rewrite IH.
Qed.

Lemma tag_named_decompose (names names' : list string) (n : node) :
  tag_named names' (decompose_all names n) = tag_named names' n.
Proof. destruct n; reflexivity. Qed.

Lemma descendants_tag (nm : string) (a : attrs) (cs : list node) (d : node) :
  In d (descendants (Tag nm a cs))
  <-> exists c, In c cs /\ (d = c \/ In d (descendants c)).
Proof.
  simpl. rewrite in_flat_map. split; intros (c & Hc & H); exists c;
    (split; [exact Hc|]); simpl in *; intuition congruence.
Qed.

End MorePageFacts.

(** X5.  After the script and style elements are taken out, no element of
    these names is left anywhere in the page, and every string of the
    page that is left was a string of the page before. *)
Theorem decompose_leaves_none (names : list string) (n : Soup.node) :
  (forall d, In d (Soup.descendants (Soup.decompose_all names n)) ->
             Soup.tag_named names d = false)
  /\ (forall s, In s (Soup.strings (Soup.decompose_all names n)) ->
                In s (Soup.strings n)).
Proof.
  assert (D : forall d,
             In d (Soup.descendants (Soup.decompose_all names n)) ->
             Soup.tag_named names d = false
             /\ exists d0, In d0 (Soup.descendants n)
                           /\ d = Soup.decompose_all names d0).
  { induction n as [s|nm a cs IH] using node_induction; [intros d []|].
    intros d. rewrite decompose_tag, descendants_tag.
    intros (c' & Hc' & Hd). apply in_map_iff in Hc'.
    destruct Hc' as (c & <- & Hc). apply filter_In in Hc.
    destruct Hc as [Hc Hkeep]. rewrite Forall_forall in IH.
    destruct Hd as [->|Hd].
    - split.
      + rewrite tag_named_decompose. now destruct (Soup.tag_named names c).
      + exists c. split; [|reflexivity].
        apply descendants_tag. exists c. split; [exact Hc | now left].
    - destruct (IH c Hc d Hd) as (T & d0 & Hd0 & E). split; [exact T|].
      exists d0. split; [|exact E].
      apply descendants_tag. exists c. split; [exact Hc | now right]. }
  split; [intros d Hd; now apply D|].
  intros s Hs. unfold Soup.strings in *. apply in_flat_map in Hs.
  destruct Hs as (d & Hd & Hs). destruct (D d Hd) as (_ & d0 & Hd0 & ->).
  apply in_flat_map. exists d0. split; [exact Hd0|].
  destruct d0; [exact Hs | destruct Hs].
Qed.

(** X6.  What a page is stored with is stripped: the title has no
    whitespace at its ends, and the content is cut from an extracted text
    that has none. *)
Theorem scraped_page_is_stripped
  (w : world) (url : string) (keywords : list Keyword) (d : article_data) :
  ContentScraper.scrape_website w url keywords = Some d ->
  Invariant.stripped (ad_title d)
  /\ exists body, Invariant.stripped body
                  /\ ad_content d = PyStr.slice_to 5000 body.
Proof.
  unfold ContentScraper.scrape_website, Invariant.stripped.
  destruct (http_get w url) as [page|]; [|discriminate].
  destruct (Matcher.check_keyword_matches _ keywords); [discriminate|].
  intros [= <-]. simpl. split; [apply strip_idempotent|].
  eexists. split; [|reflexivity].
  unfold ContentScraper.extract_article_content.
  destruct (ContentScraper.first_selected _ _);
    [apply get_text_strip_stripped|].
  destruct (Soup.find "body" _); apply get_text_strip_stripped.
Qed.

(** ** Conditions a run keeps *)

Section RunInvariants.
Import Effect Invariant.
Local Open Scope list_scope.

Variable env : nat -> world.
Variable keywords : list Keyword.

Lemma candidates_matched (w : world) (source : Source) :
  Forall (matched keywords) (candidates w keywords source).
Proof.
  unfold candidates. destruct (source_type source =? "rss")%string.
  - unfold ContentScraper.scrape_rss.
    destruct (feed_entries w (src_url source)); [|constructor].
    apply Forall_forall. intros d Hd. apply in_flat_map in Hd.
    destruct Hd as (entry & _ & Hd). apply scrape_entry_some in Hd.
    destruct Hd as (Hne & E & _). split; [now rewrite E|].
    eexists. exact E.
  - destruct (ContentScraper.scrape_website w (src_url source) keywords)
      as [d|] eqn:E; [|constructor].
    repeat constructor; apply scrape_website_some in E;
      destruct E as (page & _ & M & Hne & _); [exact Hne|].
    eexists. exact M.
Qed.

(** A condition that storing an article and writing a timestamp keep is
    kept by the whole loop. *)
Lemma replay_invariant (P : tables -> Prop) (S : Source -> Prop)
      (sources : list Source) :
  (forall source t d, S source -> matched keywords d -> P t ->
                      P (stored source t d)) ->
  (forall source now t, S source -> P t ->
                        P (Tables.touch_source (src_id source) now t)) ->
  Forall S sources ->
  forall (i : nat) (log : list outcome) (t : tables),
  P t -> P (replay env i keywords sources log t).
Proof.
  intros Hstored Htouch HS. induction HS as [|x rest Hx _ IH];
    intros i log t Ht; [exact Ht|].
  destruct log as [|o os]; [exact Ht|]. cbn [replay]. apply IH.
  destruct o; [|exact Ht]. unfold unit_of. apply Htouch; [exact Hx|].
  pose proof (candidates_matched (env i) x) as M.
  revert t Ht. induction M as [|d ds Hd _ IHd]; intros t Ht; [exact Ht|].
  cbn [fold_left]. apply IHd. now apply Hstored.
Qed.

End RunInvariants.

Lemma run_keeps (P : tables -> Prop) (S : Source -> Prop)
      (env : nat -> world) (db : tables) :
  (forall source t d,
      S source -> Invariant.matched (Job.active_keywords db) d -> P t ->
      P (Effect.stored source t d)) ->
  (forall source now t, S source -> P t ->
                        P (Tables.touch_source (src_id source) now t)) ->
  Forall S (Job.active_sources db) ->
  P db -> P (fst (Job.run_content_scraping env db)).
Proof.
  intros Hstored Htouch HS Hdb.
  destruct (run_content_scraping_run env db) as (E & _). rewrite E.
  now apply (replay_invariant env (Job.active_keywords db) P S).
Qed.

Section KeysAndReferences.
Import Effect Invariant.
Local Open Scope list_scope.

Lemma next_id_fresh (ids : list nat) : ~ In (Tables.next_id ids) ids.
Proof.
  unfold Tables.next_id. intros Hin.
  assert (H : Forall (fun k => k <= list_max ids) ids)
    by (now apply list_max_le).
  rewrite Forall_forall in H. apply H in Hin. lia.
Qed.

Lemma NoDup_snoc_fresh (ids : list nat) :
  NoDup ids -> NoDup (ids ++ [Tables.next_id ids]).
Proof.
  intros H. apply NoDup_app; [exact H | repeat constructor; intros [] |].
  intros x Hx [<-|[]]. now apply next_id_fresh in Hx.
Qed.

Lemma add_rows_row_ids (id : nat) (ms : list keyword_match) (t : tables) :
  NoDup (map ak_id (article_keywords_t t)) ->
  NoDup (map ak_id (article_keywords_t (add_rows id ms t))).
Proof.
  unfold add_rows. revert t; induction ms as [|m ms IH]; intros t H;
    [exact H|].
  cbn [fold_left]. apply IH. simpl. rewrite map_app. simpl.
  now apply NoDup_snoc_fresh.
Qed.

Lemma matched_keyword_ids (keywords : list Keyword) (d : article_data) :
  matched keywords d ->
  forall m, In m (ad_keywords d) -> In (keyword m) keywords.
Proof.
  intros (_ & T & E) m Hm.
  assert (H : In (keyword m) (map keyword (ad_keywords d)))
    by (now apply in_map).
  rewrite E, keyword_of_matches in H. apply filter_In in H. apply H.
Qed.

Variable keywords : list Keyword.
Variable source : Source.

(** Storing an article keeps the keys distinct and the references
    pointing to rows, when the keywords matched and the source are rows of
    the tables. *)
Lemma stored_consistent (t : tables) (d : article_data) :
  matched keywords d ->
  incl keywords (keywords_t t) ->
  In (src_id source) (map src_id (sources_t t)) ->
  consistent t -> consistent (stored source t d).
Proof.
  intros Hm Hk Hs Hc. unfold stored.
  destruct (Tables.find_article (ad_url d) t); [exact Hc|].
  destruct Hc as (Na & Nk & Fk & Fa).
  set (a := new_article source d t).
  destruct (add_rows_shape (art_id a) (ad_keywords d)
                           (Tables.insert_article a t))
    as (K & S & A & nk & R & _ & Kw & Ids).
  pose proof (add_rows_row_ids (art_id a) (ad_keywords d)
                               (Tables.insert_article a t) Nk) as Nk'.
  split; [|split; [exact Nk'|split]].
  - rewrite A. simpl. rewrite map_app. simpl. now apply NoDup_snoc_fresh.
  - intros r Hr. rewrite A, K, R in *. simpl in *. rewrite map_app.
    apply in_app_or in Hr. destruct Hr as [Hr|Hr].
    + destruct (Fk r Hr) as [H1 H2]. split; [|exact H2].
      apply in_or_app. now left.
    + split.
      * rewrite Forall_forall in Ids. rewrite (Ids r Hr).
        apply in_or_app. right. now left.
      * assert (H : In (ak_keyword_id r) (map ak_keyword_id nk))
          by (now apply in_map).
        rewrite Kw in H. apply in_map_iff in H. destruct H as (m & <- & Hm').
        apply in_map, Hk. now apply (matched_keyword_ids keywords d).
  - intros b Hb. rewrite A, S in *. simpl in *.
    apply in_app_or in Hb. destruct Hb as [Hb|[<-|[]]]; [now apply Fa|].
    exact Hs.
Qed.

(** Storing an article keeps every article with a keyword row. *)
Lemma stored_tagged (t : tables) (d : article_data) :
  matched keywords d -> tagged t -> tagged (stored source t d).
Proof.
  intros (Hne & _) Ht. unfold stored.
  destruct (Tables.find_article (ad_url d) t); [exact Ht|].
  set (a := new_article source d t).
  destruct (add_rows_shape (art_id a) (ad_keywords d)
                           (Tables.insert_article a t))
    as (_ & _ & A & nk & R & Sc & _ & Ids).
  intros b Hb. rewrite A in Hb. rewrite R. simpl in *.
  apply in_app_or in Hb. destruct Hb as [Hb|[<-|[]]].
  - destruct (Ht b Hb) as (r & Hr & E). exists r.
    split; [apply in_or_app; now left | exact E].
  - destruct nk as [|r nk].
    + destruct (ad_keywords d); [contradiction | discriminate].
    + exists r. split; [apply in_or_app; right; now left|].
      now inversion Ids.
Qed.

End KeysAndReferences.

(** X7.  A run keeps the tables consistent: the ids of the articles and
    of the keyword rows stay distinct, every keyword row points to an
    article and to a keyword, and every article to a source. *)
Theorem run_keeps_consistent (env : nat -> world) (db : tables) :
  Invariant.consistent db ->
  Invariant.consistent (fst (Job.run_content_scraping env db)).
Proof.
  intros Hc.
  apply (run_keeps
           (fun t => Invariant.consistent t
                     /\ keywords_t t = keywords_t db
                     /\ map src_id (sources_t t) = map src_id (sources_t db))
           (fun source => In (src_id source) (map src_id (sources_t db)))
           env db); [| | |split; [exact Hc | split; reflexivity]].
  - intros source t d Hs Hm (Ht & K & S).
    destruct (stored_shape source t d) as (K' & S' & _).
    split; [|split; congruence].
    apply (stored_consistent (Job.active_keywords db)); trivial.
    + rewrite K. intros k Hk. unfold Job.active_keywords in Hk.
      apply filter_In in Hk. apply Hk.
    + now rewrite S.
  - intros source now t _ ((Na & Nk & Fk & Fa) & K & S).
    assert (S' : map src_id (sources_t (Tables.touch_source (src_id source)
                                                           now t))
                 = map src_id (sources_t t)).
    { simpl. rewrite map_map. apply map_ext. intros x. apply src_id_touch. }
    split; [|split; [exact K | congruence]].
    split; [exact Na|]. split; [exact Nk|]. split; [exact Fk|].
    intros a Ha. rewrite S'. now apply Fa.
  - apply Forall_forall. intros source Hs. apply in_map.
    unfold Job.active_sources in Hs. apply filter_In in Hs. apply Hs.
Qed.

(** X8.  A run leaves every article with at least one keyword row. *)
Theorem run_keeps_tagged (env : nat -> world) (db : tables) :
  Invariant.tagged db ->
  Invariant.tagged (fst (Job.run_content_scraping env db)).
Proof.
  intros Ht.
  apply (run_keeps Invariant.tagged (fun _ => True) env db); trivial.
  - intros source t d _ Hm H.
    now apply (stored_tagged (Job.active_keywords db)).
  - apply Forall_forall. trivial.
Qed.

(** ** What a run reads and what it leaves alone *)

Section RunScope.
Import Effect Invariant.
Local Open Scope list_scope.

Lemma same_id_same_row {A} (f : A -> nat) (l : list A) (x y : A) :
  NoDup (map f l) -> In x l -> In y l -> f x = f y -> x = y.
Proof.
  induction l as [|z l IH]; simpl; [intros _ []|].
  intros Hnd Hx Hy E. inversion Hnd as [|? ? Hz Hl]; subst.
  destruct Hx as [->|Hx], Hy as [->|Hy]; trivial.
  - exfalso. apply Hz. rewrite E. now apply in_map.
  - exfalso. apply Hz. rewrite <- E. now apply in_map.
  - now apply IH.
Qed.

Lemma flat_map_nil {A B} (f : A -> list B) (l : list A) :
  (forall x, f x = []) -> flat_map f l = [].
Proof.
  intros H. induction l as [|x l IH]; simpl; [reflexivity|].
  now rewrite H, IH.
Qed.

Lemma candidates_no_keywords (w : world) (source : Source) :
  candidates w [] source = [].
Proof.
  unfold candidates. destruct (source_type source =? "rss")%string.
  - unfold ContentScraper.scrape_rss.
    destruct (feed_entries w (src_url source)); [|reflexivity].
    now apply flat_map_nil.
  - unfold ContentScraper.scrape_website.
    now destruct (http_get w (src_url source)).
Qed.

End RunScope.


Lemma run_skips_inactive
  (env : nat -> world) (db : tables) (source : Source) :
  NoDup (map src_id (sources_t db)) ->
  In source (sources_t db) ->
  src_active source = false ->
  Tables.source_by_id (src_id source) (fst (Job.run_content_scraping env db))
  = Some source.
Proof.
  intros Hnd Hin Hoff.
  destruct (run_content_scraping_run env db) as (E & _). rewrite E.
  apply replay_other; [|now apply source_by_id_unique].
  intros Hid. apply in_map_iff in Hid. destruct Hid as (y & Ey & Hy).
  unfold Job.active_sources in Hy. apply filter_In in Hy.
  destruct Hy as [Hy Hact].
  assert (y = source) by (now apply (same_id_same_row src_id (sources_t db))).
  subst y. congruence.
Qed.

(** X10.  A source that is not active is not touched by a run: its row,
    timestamp included, is after the run what it was before. *)
Theorem inactive_source_untouched
  (env : nat -> world) (db : tables) (source : Source) :
  NoDup (map src_id (sources_t db)) ->
  In source (sources_t db) ->
  src_active source = false ->
  Tables.source_by_id (src_id source) (fst (Job.run_content_scraping env db))
  = Some source.
Proof. apply run_skips_inactive. Qed.

(** X11.  With no active keyword a run stores nothing, whatever the
    sources return. *)
Theorem no_keywords_no_articles (env : nat -> world) (db : tables) :
  Job.active_keywords db = [] ->
  let db' := fst (Job.run_content_scraping env db) in
  articles_t db' = articles_t db
  /\ article_keywords_t db' = article_keywords_t db.
Proof.
  intros Hk db'. subst db'.
  apply (run_keeps
           (fun t => articles_t t = articles_t db
                     /\ article_keywords_t t = article_keywords_t db)
           (fun _ => True) env db).
  - intros source t d _ (Hne & T & E) _. rewrite Hk in E. simpl in E.
    contradiction.
  - intros source now t _ H. exact H.
  - apply Forall_forall. trivial.
  - now split.
Qed.

(** X12.  A page is stored once.  When the database holds an article
    with the url of a source that is not a feed, the iteration of that
    source adds no article and no keyword row, whatever the page says
    now. *)
Theorem page_stored_once
  (w : world) (keywords : list Keyword) (source : Source) (s : session) :
  working s = committed s ->
  source_type source <> "rss" ->
  In (src_url source) (map art_url (articles_t (committed s))) ->
  let s1 := fst (Job.process_source w keywords source s) in
  articles_t (committed s1) = articles_t (committed s)
  /\ article_keywords_t (committed s1) = article_keywords_t (committed s).
Proof.
  intros Hclean Hweb Hin s1. subst s1.
  destruct (Job.process_source w keywords source s) as [s1 o] eqn:E.
  apply process_source_run in E; [|exact Hclean]. destruct E as (_ & R).
  simpl. destruct o; [|destruct R as [-> _]; now split].
  rewrite R. apply unit_of_known. intros d Hd.
  unfold Effect.candidates in Hd.
  destruct (String.eqb_spec (source_type source) "rss"); [contradiction|].
  destruct (ContentScraper.scrape_website w (src_url source) keywords)
    as [d'|] eqn:Ed; [|destruct Hd].
  destruct Hd as [->|[]]. apply scrape_website_some in Ed.
  destruct Ed as (_ & _ & _ & _ & _ & ->). exact Hin.
Qed.

Lemma run_adds_for_active (env : nat -> world) (db : tables) :
  let db' := fst (Job.run_content_scraping env db) in
  (exists na,
      articles_t db' = (articles_t db ++ na)%list
      /\ Forall (fun a => In (art_source_id a)
                             (map src_id (Job.active_sources db))) na)
  /\ (exists nk,
        article_keywords_t db' = (article_keywords_t db ++ nk)%list
        /\ Forall (fun r => In (ak_keyword_id r)
                               (map kw_id (Job.active_keywords db))) nk).
Proof.
  intros db'. subst db'.
  apply (run_keeps
           (fun t =>
              (exists na,
                  articles_t t = (articles_t db ++ na)%list
                  /\ Forall (fun a => In (art_source_id a)
                                         (map src_id (Job.active_sources db)))
                            na)
              /\ (exists nk,
                    article_keywords_t t = (article_keywords_t db ++ nk)%list
                    /\ Forall (fun r => In (ak_keyword_id r)
                                           (map kw_id (Job.active_keywords db)))
                              nk))
           (fun source => In source (Job.active_sources db)) env db).
  - intros source t d Hs Hm ((na & A & Pa) & (nk & R & Pk)).
    unfold Effect.stored.
    destruct (Tables.find_article (ad_url d) t);
      [split; [now exists na | now exists nk]|].
    set (a := Effect.new_article source d t).
    destruct (add_rows_shape (art_id a) (ad_keywords d)
                             (Tables.insert_article a t))
      as (_ & _ & A' & nk' & R' & _ & Kw & _).
    split.
    + exists (na ++ [a])%list. split.
      * rewrite A'. simpl. now rewrite A, <- app_assoc.
      * apply Forall_app. split; [exact Pa|]. repeat constructor.
        simpl. now apply in_map.
    + exists (nk ++ nk')%list. split.
      * rewrite R'. simpl. now rewrite R, <- app_assoc.
      * apply Forall_app. split; [exact Pk|]. apply Forall_forall.
        intros r Hr.
        assert (H : In (ak_keyword_id r) (map ak_keyword_id nk'))
          by (now apply in_map).
        rewrite Kw in H. apply in_map_iff in H. destruct H as (m & <- & Hm').
        apply in_map.
        now apply (matched_keyword_ids (Job.active_keywords db) d).
  - intros source now t _ H. exact H.
  - apply Forall_forall. trivial.
  - split; exists []; (split; [now rewrite app_nil_r | constructor]).
Qed.

(** X13.  The articles and keyword rows a run adds carry the ids of
    active sources and of active keywords. *)
Theorem run_writes_active_ids (env : nat -> world) (db : tables) :
  let db' := fst (Job.run_content_scraping env db) in
  (exists na,
      articles_t db' = (articles_t db ++ na)%list
      /\ Forall (fun a => In (art_source_id a)
                             (map src_id (Job.active_sources db))) na)
  /\ (exists nk,
        article_keywords_t db' = (article_keywords_t db ++ nk)%list
        /\ Forall (fun r => In (ak_keyword_id r)
                               (map kw_id (Job.active_keywords db))) nk).
Proof. apply run_adds_for_active. Qed.

(** ** Several runs at a time *)

Section MoreSchedulerFacts.
Import Scheduler Invariant.

Lemma length_by_origin (running : list origin) :
  List.length running = instances Timer running + instances Manual running.
Proof.
  unfold instances. induction running as [|r rest IH]; [reflexivity|].
  destruct r; simpl; lia.
Qed.

Lemma steps_manual_bound (events : list event) :
  forall running,
  instances Manual (fold_left step events running)
  <= instances Manual running + manual_requests events.
Proof.
  unfold manual_requests.
  induction events as [|e events IH]; intros running; simpl; [lia|].
  etransitivity; [apply IH|]. destruct e as [| |o]; simpl.
  - destruct (instances Timer running <? max_instances); simpl; [|lia].
    unfold instances. simpl. lia.
  - unfold instances. simpl. lia.
  - pose proof (instances_remove_one Manual o running). lia.
Qed.

Lemma after_manual_requests (n : nat) (running : list origin) :
  List.length (fold_left step (repeat ManualRequest n) running)
  = n + List.length running.
Proof.
  revert running; induction n as [|n IH]; intros running; [reflexivity|].
  simpl. rewrite IH. simpl. lia.
Qed.

End MoreSchedulerFacts.

(** X14.  The runs executing at a time are at most one more than the
    manual requests made so far, and this is reached: a run of the
    interval job and n manual requests give n + 1 runs at a time. *)
Theorem concurrent_runs_bound (events : list Scheduler.event) (n : nat) :
  List.length (Scheduler.after events) <= 1 + Invariant.manual_requests events
  /\ List.length
       (Scheduler.after (Scheduler.TimerFires
                           :: repeat Scheduler.ManualRequest n))
     = S n.
Proof.
  split.
  - rewrite length_by_origin.
    pose proof (steps_timer_bound events [] (Nat.le_0_l _)) as T.
    pose proof (steps_manual_bound events []) as M.
    unfold Scheduler.after, Scheduler.max_instances in *.
    unfold Scheduler.instances at 2 in M. simpl in M. lia.
  - unfold Scheduler.after. simpl. rewrite after_manual_requests.
    simpl. lia.
Qed.

(** ** The keyword and source forms *)

Section RouteFacts.
Import Session Routes PyStr Invariant.
Local Open Scope list_scope.

Variable w : world.

Lemma find_term_none (x : string) (l : list Keyword) :
  find (term_is x) l = None -> ~ In x (map term l).
Proof.
  intros H Hin. apply in_map_iff in Hin. destruct Hin as (k & <- & Hk).
  apply (find_none _ _ H) in Hk. unfold term_is in Hk.
  now rewrite String.eqb_refl in Hk.
Qed.

Lemma find_term_some (x : string) (l : list Keyword) :
  In x (map term l) -> find (term_is x) l <> None.
Proof. intros Hin H. now apply find_term_none in H. Qed.

Lemma find_term_existsb (x : string) (l : list Keyword) :
  find (term_is x) l = None -> existsb (term_is x) l = false.
Proof.
  induction l as [|k l IH]; simpl; trivial.
  destruct (term_is x k); [discriminate | exact IH].
Qed.

(** What [add_keyword] leaves and answers, by the failures of the
    storage. *)
Lemma add_keyword_serve (form_term : option string) (db : tables) :
  let t := strip (form_get form_term) in
  serve (add_keyword w form_term) db
  = if truthy t then
      if storage_fault w 0 then (db, None)
      else match find (term_is (lower t)) (keywords_t db) with
           | Some _ => (db, Some (Redirect [KeywordExists t]))
           | None =>
               if storage_fault w 1 then (db, None)
               else (insert_keyword (lower t) db,
                     Some (Redirect [KeywordAdded t]))
           end
    else (db, Some (Redirect [])).
Proof.
  intros t. unfold serve, add_keyword. fold t.
  destruct (truthy t); [|reflexivity].
  unfold keyword_by_term, add_keyword_commit, bind, storage_op, ret, open.
  cbn. destruct (storage_fault w 0); [reflexivity|]. cbn.
  destruct (find (term_is (lower t)) (keywords_t db)) eqn:Q; [reflexivity|].
  cbn. destruct (storage_fault w 1); [reflexivity|]. cbn.
  now rewrite (find_term_existsb _ _ Q).
Qed.

Lemma lower_empty (s : string) : lower s = EmptyString -> s = EmptyString.
Proof. destruct s; [reflexivity | discriminate]. Qed.

Lemma truthy_lower (s : string) : truthy (lower s) = truthy s.
Proof. now destruct s. Qed.

End RouteFacts.

(** X15.  Adding a keyword keeps the terms distinct and in lower case,
    whatever the form holds and whether the storage works or not. *)
Theorem add_keyword_keeps_terms_normal
  (w : world) (form_term : option string) (db : tables) :
  Invariant.terms_normal db ->
  Invariant.terms_normal (fst (Routes.serve (Routes.add_keyword w form_term) db)).
Proof.
  intros (Hnd & Hlow). rewrite add_keyword_serve.
  destruct (PyStr.truthy _); [|now split].
  destruct (storage_fault w 0); [now split|].
  destruct (find _ (keywords_t db)) eqn:Q; [now split|].
  destruct (storage_fault w 1); [now split|].
  unfold Invariant.terms_normal, Routes.insert_keyword. cbn. split.
  - rewrite map_app. simpl. apply NoDup_app; [exact Hnd | |].
    + repeat constructor. intros [].
    + intros x Hx [<-|[]]. now apply find_term_none in Q.
  - intros k Hk. apply in_app_or in Hk. destruct Hk as [Hk|[<-|[]]].
    + now apply Hlow.
    + simpl. apply lower_idempotent.
Qed.

(** X16.  A term is added once.  After a request that was answered, a
    request with the same term up to case and outer whitespace changes
    nothing; and a blank term is never added. *)
Theorem add_keyword_once
  (w1 w2 : world) (form1 form2 : option string) (db : tables) :
  PyStr.lower (PyStr.strip (Routes.form_get form1))
  = PyStr.lower (PyStr.strip (Routes.form_get form2)) ->
  snd (Routes.serve (Routes.add_keyword w1 form1) db) <> None ->
  let db1 := fst (Routes.serve (Routes.add_keyword w1 form1) db) in
  fst (Routes.serve (Routes.add_keyword w2 form2) db1) = db1
  /\ (PyStr.strip (Routes.form_get form1) = EmptyString -> db1 = db).
Proof.
  intros E Hans db1. subst db1.
  set (t1 := PyStr.strip (Routes.form_get form1)) in *.
  set (t2 := PyStr.strip (Routes.form_get form2)) in *.
  assert (K : forall db0,
             PyStr.truthy t2 = false
             \/ In (PyStr.lower t2) (map term (keywords_t db0)) ->
             fst (Routes.serve (Routes.add_keyword w2 form2) db0) = db0).
  { intros db0 H. rewrite add_keyword_serve. fold t2.
    destruct (PyStr.truthy t2) eqn:T; [|reflexivity].
    destruct H as [H|H]; [discriminate|].
    destruct (storage_fault w2 0); [reflexivity|].
    destruct (find _ (keywords_t db0)) eqn:Q; [reflexivity|].
    now apply find_term_none in Q. }
  pose proof (add_keyword_serve w1 form1 db) as F. cbv zeta in F.
  fold t1 in F. rewrite F in Hans |- *. clear F.
  assert (T : PyStr.truthy t2 = PyStr.truthy t1).
  { now rewrite <- (truthy_lower t2), <- E, truthy_lower. }
  destruct (PyStr.truthy t1) eqn:T1.
  - split; [|intros Z; rewrite Z in T1; discriminate].
    destruct (storage_fault w1 0); [now contradiction Hans|].
    destruct (find _ (keywords_t db)) eqn:Q.
    + apply K. right. rewrite <- E. simpl.
      apply find_some in Q. destruct Q as [Hk Ek].
      apply String.eqb_eq in Ek. rewrite <- Ek. now apply in_map.
    + destruct (storage_fault w1 1); [now contradiction Hans|].
      apply K. right. rewrite <- E. simpl. rewrite map_app.
      apply in_or_app. right. now left.
  - split; [|reflexivity]. apply K. now left.
Qed.

Section ToggleFacts.
Import Session Routes Invariant.
Local Open Scope list_scope.

Variable w : world.

Lemma toggle_keyword_serve (id : nat) (db : tables) :
  serve (toggle_keyword w id) db
  = if storage_fault w 0 then (db, None)
    else match find (fun k => kw_id k =? id) (keywords_t db) with
         | None => (db, Some NotFound)
         | Some k =>
             if storage_fault w 1 then (db, None)
             else
               (with_keyword_active id (negb (kw_active k)) db,
                if storage_fault w 2 then None
                else Some (Redirect [KeywordToggled (term k)
                                                    (negb (kw_active k))]))
         end.
Proof.
  unfold serve, toggle_keyword, keyword_by_id, set_keyword_active, commit,
    bind, storage_op, ret, open.
  cbn. destruct (storage_fault w 0); [reflexivity|]. cbn.
  destruct (find _ (keywords_t db)); [|reflexivity].
  cbn. destruct (storage_fault w 1); [reflexivity|]. cbn.
  destruct (storage_fault w 2); reflexivity.
Qed.

Lemma toggle_source_serve (id : nat) (db : tables) :
  serve (toggle_source w id) db
  = if storage_fault w 0 then (db, None)
    else match Tables.source_by_id id db with
         | None => (db, Some NotFound)
         | Some src =>
             if storage_fault w 1 then (db, None)
             else
               (with_source_active id (negb (src_active src)) db,
                if storage_fault w 2 then None
                else Some (Redirect [SourceToggled (src_name src)
                                                   (negb (src_active src))]))
         end.
Proof.
  unfold serve, toggle_source, source_by_id, set_source_active, commit,
    bind, storage_op, ret, open.
  cbn. destruct (storage_fault w 0); [reflexivity|]. cbn.
  destruct (Tables.source_by_id id db); [|reflexivity].
  cbn. destruct (storage_fault w 1); [reflexivity|]. cbn.
  destruct (storage_fault w 2); reflexivity.
Qed.

Lemma add_source_serve (form_name form_url form_type : option string)
      (db : tables) :
  let name := PyStr.strip (form_get form_name) in
  let url := PyStr.strip (form_get form_url) in
  let type := match form_type with Some v => v | None => "website" end in
  serve (add_source w form_name form_url form_type) db
  = if PyStr.truthy name && PyStr.truthy url then
      if storage_fault w 0 then (db, None)
      else match find (source_url_is url) (sources_t db) with
           | Some _ => (db, Some (Redirect [SourceExists url]))
           | None =>
               if storage_fault w 1 then (db, None)
               else (insert_source name url type db,
                     Some (Redirect [SourceAdded name]))
           end
    else (db, Some (Redirect [])).
Proof.
  intros name url type. unfold serve, add_source. fold name url type.
  destruct (PyStr.truthy name && PyStr.truthy url); [|reflexivity].
  unfold source_by_url, add_source_commit, bind, storage_op, ret, open.
  cbn. destruct (storage_fault w 0); [reflexivity|]. cbn.
  destruct (find (source_url_is url) (sources_t db)); [reflexivity|].
  cbn. destruct (storage_fault w 1); reflexivity.
Qed.

Lemma kw_id_set_active (id : nat) (a : bool) (k : Keyword) :
  kw_id (set_active_k id a k) = kw_id k.
Proof. unfold set_active_k. now destruct (kw_id k =? id). Qed.

Lemma src_id_set_active (id : nat) (a : bool) (src : Source) :
  src_id (set_active_s id a src) = src_id src.
Proof. unfold set_active_s. now destruct (src_id src =? id). Qed.

Lemma set_active_k_back (id : nat) (k x : Keyword) (l : list Keyword) :
  NoDup (map kw_id l) -> In k l -> kw_id k = id -> In x l ->
  set_active_k id (kw_active k) (set_active_k id (negb (kw_active k)) x) = x.
Proof.
  intros Hnd Hk Hid Hx. unfold set_active_k at 2.
  destruct (Nat.eqb_spec (kw_id x) id) as [E|E].
  - assert (x = k)
      by (apply (same_id_same_row kw_id l); trivial; congruence).
    subst x. unfold set_active_k. simpl. rewrite Hid, Nat.eqb_refl.
    subst id. now destruct k.
  - unfold set_active_k. now destruct (Nat.eqb_spec (kw_id x) id).
Qed.

(** No keyword of this id is active once the id was set inactive. *)
Lemma inactive_id_k (id : nat) (l : list Keyword) :
  ~ In id (map kw_id (filter kw_active (map (set_active_k id false) l))).
Proof.
  intros H. apply in_map_iff in H. destruct H as (x & E & Hx).
  apply filter_In in Hx. destruct Hx as [Hx Hact].
  apply in_map_iff in Hx. destruct Hx as (y & <- & _).
  rewrite kw_id_set_active in E. unfold set_active_k in Hact.
  rewrite E, Nat.eqb_refl in Hact. discriminate.
Qed.

Lemma inactive_id_s (id : nat) (l : list Source) :
  ~ In id (map src_id (filter src_active (map (set_active_s id false) l))).
Proof.
  intros H. apply in_map_iff in H. destruct H as (x & E & Hx).
  apply filter_In in Hx. destruct Hx as [Hx Hact].
  apply in_map_iff in Hx. destruct Hx as (y & <- & _).
  rewrite src_id_set_active in E. unfold set_active_s in Hact.
  rewrite E, Nat.eqb_refl in Hact. discriminate.
Qed.

Lemma active_after_off (id : nat) (l : list Keyword) :
  filter kw_active (map (set_active_k id false) l)
  = filter (fun x => negb (kw_id x =? id)) (filter kw_active l).
Proof.
  induction l as [|x l IH]; [reflexivity|]. cbn [map filter].
  destruct (Nat.eqb_spec (kw_id x) id) as [Ex|Ex].
  - assert (Off : kw_active (set_active_k id false x) = false).
    { unfold set_active_k. now rewrite Ex, Nat.eqb_refl. }
    rewrite Off, IH. destruct (kw_active x); [|reflexivity].
    cbn [filter]. now rewrite Ex, Nat.eqb_refl.
  - assert (Same : set_active_k id false x = x).
    { unfold set_active_k. now destruct (Nat.eqb_spec (kw_id x) id). }
    rewrite Same, IH. destruct (kw_active x); [|reflexivity].
    cbn [filter]. now destruct (Nat.eqb_spec (kw_id x) id).
Qed.

Lemma find_by_id_unique (l : list Keyword) (k : Keyword) :
  NoDup (map kw_id l) -> In k l ->
  find (fun x => kw_id x =? kw_id k) l = Some k.
Proof.
  induction l as [|y l IH]; simpl; [intros _ []|].
  intros Hnd [->|Hin]; [now rewrite Nat.eqb_refl|].
  inversion Hnd as [|? ? Hy Hl]; subst.
  destruct (Nat.eqb_spec (kw_id y) (kw_id k)) as [E|_]; [|now apply IH].
  exfalso. apply Hy. rewrite E. now apply in_map.
Qed.

End ToggleFacts.

(** X17.  Toggling a keyword twice gives the tables back, and an id that
    no keyword has is answered with 404 and changes nothing. *)
Theorem toggle_keyword_twice (w1 w2 : world) (id : nat) (db : tables) :
  NoDup (map kw_id (keywords_t db)) ->
  Effect.storage_works w1 -> Effect.storage_works w2 ->
  fst (Routes.serve (Routes.toggle_keyword w2 id)
                    (fst (Routes.serve (Routes.toggle_keyword w1 id) db)))
  = db
  /\ (~ In id (map kw_id (keywords_t db)) ->
      Routes.serve (Routes.toggle_keyword w1 id) db
      = (db, Some Routes.NotFound)).
Proof.
  intros Hnd H1 H2. rewrite !toggle_keyword_serve.
  rewrite !H1, !H2.
  destruct (find (fun k => kw_id k =? id) (keywords_t db)) as [k|] eqn:Q.
  - split.
    + cbn [fst Invariant.with_keyword_active keywords_t].
      rewrite find_map_stable
        by (intros x; now rewrite kw_id_set_active).
      rewrite Q. cbn.
      apply find_some in Q. destruct Q as [Hk Ek].
      apply Nat.eqb_eq in Ek.
      assert (Ea : kw_active (Routes.set_active_k id (negb (kw_active k)) k)
                   = negb (kw_active k)).
      { unfold Routes.set_active_k. now rewrite Ek, Nat.eqb_refl. }
      rewrite Ea, Bool.negb_involutive.
      unfold Invariant.with_keyword_active. cbn. rewrite map_map.
      destruct db as [ks ss arts aks]. cbn in *. f_equal.
      rewrite <- (map_id ks) at 2. apply map_ext_in. intros x Hx.
      now apply (set_active_k_back id k x ks).
    + intros Hno. exfalso. apply Hno. apply find_some in Q.
      destruct Q as [Hk Ek]. apply Nat.eqb_eq in Ek. rewrite <- Ek.
      now apply in_map.
  - split; [|reflexivity]. cbn [fst]. now rewrite Q.
Qed.

(** X18.  A keyword switched off is not matched any more: the runs after
    the request add no row for it. *)
Theorem deactivated_keyword_not_matched
  (w : world) (env : nat -> world) (k : Keyword) (db : tables) :
  NoDup (map kw_id (keywords_t db)) ->
  In k (keywords_t db) -> kw_active k = true ->
  Effect.storage_works w ->
  let db1 := fst (Routes.serve (Routes.toggle_keyword w (kw_id k)) db) in
  Job.active_keywords db1
  = filter (fun x => negb (kw_id x =? kw_id k)) (Job.active_keywords db)
  /\ exists rows,
       article_keywords_t (fst (Job.run_content_scraping env db1))
       = (article_keywords_t db1 ++ rows)%list
       /\ Forall (fun r => ak_keyword_id r <> kw_id k) rows.
Proof.
  intros Hnd Hin Hact Hw db1.
  assert (E : db1 = Invariant.with_keyword_active (kw_id k) false db).
  { subst db1. rewrite toggle_keyword_serve, !Hw.
    rewrite (find_by_id_unique _ k Hnd Hin). now rewrite Hact. }
  split.
  - rewrite E. unfold Job.active_keywords. cbn. apply active_after_off.
  - destruct (run_adds_for_active env db1) as (_ & nk & R & P).
    exists nk. split; [exact R|].
    eapply Forall_impl; [|exact P]. intros r Hr Eid. cbv beta in Hr.
    rewrite Eid, E in Hr. now apply inactive_id_k in Hr.
Qed.

(** X19.  Adding a source keeps the urls and the ids of the sources
    distinct, and a request with a url the table holds changes nothing. *)
Theorem add_source_keeps_urls_distinct
  (w : world) (form_name form_url form_type : option string) (db : tables) :
  NoDup (map src_url (sources_t db)) ->
  NoDup (map src_id (sources_t db)) ->
  let db1 := fst (Routes.serve
                    (Routes.add_source w form_name form_url form_type) db) in
  NoDup (map src_url (sources_t db1))
  /\ NoDup (map src_id (sources_t db1))
  /\ (In (PyStr.strip (Routes.form_get form_url)) (map src_url (sources_t db))
      -> db1 = db).
Proof.
  intros Hu Hi db1. subst db1. rewrite add_source_serve.
  set (url := PyStr.strip (Routes.form_get form_url)).
  destruct (_ && _); [|now repeat split].
  destruct (storage_fault w 0); [now repeat split|].
  destruct (find (Routes.source_url_is url) (sources_t db)) eqn:Q;
    [now repeat split|].
  assert (Hnew : ~ In url (map src_url (sources_t db))).
  { intros Hin. apply in_map_iff in Hin. destruct Hin as (x & Ex & Hx).
    apply (find_none _ _ Q) in Hx. unfold Routes.source_url_is in Hx.
    now rewrite Ex, String.eqb_refl in Hx. }
  destruct (storage_fault w 1); [now repeat split|].
  cbn. rewrite !map_app. cbn. split; [|split].
  - apply NoDup_app; [exact Hu | repeat constructor; intros [] |].
    intros x Hx [<-|[]]. contradiction.
  - now apply NoDup_snoc_fresh.
  - intros Hin. contradiction.
Qed.

(** X20.  A source switched off is left alone: the runs after the
    request add no article for it and do not write its timestamp. *)
Theorem deactivated_source_not_scraped
  (w : world) (env : nat -> world) (source : Source) (db : tables) :
  NoDup (map src_id (sources_t db)) ->
  In source (sources_t db) -> src_active source = true ->
  Effect.storage_works w ->
  let db1 := fst (Routes.serve (Routes.toggle_source w (src_id source)) db) in
  let db2 := fst (Job.run_content_scraping env db1) in
  Effect.last_scraped_of (src_id source) db2 = Some (last_scraped source)
  /\ exists new,
       articles_t db2 = (articles_t db1 ++ new)%list
       /\ Forall (fun a => art_source_id a <> src_id source) new.
Proof.
  intros Hnd Hin Hact Hw db1 db2.
  assert (E : db1 = Invariant.with_source_active (src_id source) false db).
  { subst db1. rewrite toggle_source_serve, !Hw.
    rewrite (source_by_id_unique db source Hnd Hin). now rewrite Hact. }
  split.
  - set (off := Routes.set_active_s (src_id source) false source).
    assert (Hoff : Tables.source_by_id (src_id off) db2 = Some off).
    { subst db2. apply run_skips_inactive.
      - rewrite E. cbn. rewrite map_map.
        erewrite map_ext; [exact Hnd|].
        intros x. apply src_id_set_active.
      - rewrite E. cbn. now apply in_map.
      - subst off. unfold Routes.set_active_s. now rewrite Nat.eqb_refl. }
    unfold Effect.last_scraped_of.
    replace (src_id source) with (src_id off)
      by (subst off; apply src_id_set_active).
    rewrite Hoff. cbn. subst off. unfold Routes.set_active_s.
    now rewrite Nat.eqb_refl.
  - destruct (run_adds_for_active env db1) as ((na & A & P) & _).
    exists na. split; [exact A|].
    eapply Forall_impl; [|exact P]. intros a Ha Eid. cbv beta in Ha.
    rewrite Eid, E in Ha. now apply inactive_id_s in Ha.
Qed.

(** ** The default data *)

Section SeedFacts.
Import Session Seed Invariant.

Lemma started_cases (w : world) (db : tables) :
  started w db
  = if storage_fault w 0 then db
    else match keywords_t db with
         | _ :: _ => db
         | [] => if storage_fault w 1 then db else with_defaults db
         end.
Proof.
  unfold started, seed, bind, storage_op, open. cbn.
  destruct (storage_fault w 0); [reflexivity|]. cbn.
  destruct (keywords_t db); [|reflexivity].
  cbn. destruct (storage_fault w 1); reflexivity.
Qed.

Lemma with_defaults_terms (db : tables) :
  keywords_t db = [] ->
  map term (keywords_t (with_defaults db)) = default_keywords.
Proof.
  destruct db as [ks ss arts aks]. cbn. intros ->. reflexivity.
Qed.

Lemma default_keywords_normal :
  NoDup default_keywords
  /\ Forall (fun t => PyStr.lower t = t) default_keywords.
Proof.
  split.
  - unfold default_keywords.
    repeat (constructor; [simpl; intuition discriminate|]). constructor.
  - repeat constructor.
Qed.

End SeedFacts.

(** X21.  The default data is written once: with a keyword in the table
    the start of the program changes nothing, so a second start after one
    whose storage worked changes nothing; and the start keeps the terms
    distinct and in lower case. *)
Theorem defaults_written_once (w w' : world) (db : tables) :
  Effect.storage_works w ->
  Seed.started w' (Seed.started w db) = Seed.started w db
  /\ (keywords_t db <> [] -> Seed.started w db = db)
  /\ (Invariant.terms_normal db -> Invariant.terms_normal (Seed.started w db)).
Proof.
  intros Hw.
  assert (G : forall v t, keywords_t t <> [] -> Seed.started v t = t).
  { intros v t Hne. rewrite started_cases.
    destruct (storage_fault v 0); [reflexivity|].
    destruct (keywords_t t); [contradiction | reflexivity]. }
  assert (E : Seed.started w db
              = match keywords_t db with
                | _ :: _ => db
                | [] => Seed.with_defaults db
                end).
  { rewrite started_cases, !Hw. reflexivity. }
  split; [|split].
  - apply G. rewrite E. destruct (keywords_t db) eqn:K; [|now rewrite K].
    intros Z. pose proof (with_defaults_terms db K) as T.
    rewrite Z in T. discriminate.
  - apply G.
  - intros Hn. rewrite E. destruct (keywords_t db) eqn:K; [|exact Hn].
    destruct default_keywords_normal as [Nd Low]. split.
    + now rewrite (with_defaults_terms db K).
    + intros k Hk. rewrite Forall_forall in Low. apply Low.
      rewrite <- (with_defaults_terms db K). now apply in_map.
Qed.

(** ** The further properties on concrete inputs *)

Import Sample.


Lemma entry_matched_on_each_field_witness :
  In kw_python [kw_ai; kw_python]
  /\ Matcher.hit (ContentScraper.get_or_empty (e_description linkless))
                 kw_python = true
  /\ In kw_python
        (map keyword
             (ContentScraper.entry_matches [kw_ai; kw_python] linkless)).
Proof.
  assert (Hin : In kw_python [kw_ai; kw_python]) by (right; now left).
  assert (Hd : Matcher.hit (ContentScraper.get_or_empty
                              (e_description linkless)) kw_python = true)
    by (vm_compute; reflexivity).
  split; [exact Hin | split; [exact Hd|]].
  exact (entry_matched_on_each_field [kw_ai; kw_python] linkless kw_python
           Hin (or_intror (or_introl Hd))).
Defined.

Lemma scraped_page_is_stripped_witness :
  match ContentScraper.scrape_website works (src_url blog) [kw_ai] with
  | Some d => Invariant.stripped (ad_title d)
  | None => False
  end.
Proof.
  destruct (ContentScraper.scrape_website works (src_url blog) [kw_ai])
    as [d|] eqn:E.
  - exact (proj1 (scraped_page_is_stripped works (src_url blog) [kw_ai] d E)).
  - vm_compute in E. discriminate.
Defined.

Lemma run_keeps_consistent_witness :
  Invariant.consistent db0
  /\ Invariant.consistent (fst (Job.run_content_scraping fine db0)).
Proof.
  assert (H : Invariant.consistent db0).
  { split; [constructor|]. split; [constructor|].
    split; intros x []. }
  split; [exact H | exact (run_keeps_consistent fine db0 H)].
Defined.

Lemma run_keeps_tagged_witness :
  Invariant.tagged db0
  /\ Invariant.tagged (fst (Job.run_content_scraping fine db0)).
Proof.
  assert (H : Invariant.tagged db0) by (intros a []).
  split; [exact H | exact (run_keeps_tagged fine db0 H)].
Defined.

Lemma inactive_source_untouched_witness :
  NoDup (map src_id (sources_t db_archive))
  /\ In archive (sources_t db_archive)
  /\ src_active archive = false
  /\ Tables.source_by_id 3 (fst (Job.run_content_scraping fine db_archive))
     = Some archive.
Proof.
  assert (Hnd : NoDup (map src_id (sources_t db_archive)))
    by (simpl; repeat (constructor; [simpl; intuition discriminate|]);
        constructor).
  assert (Hin : In archive (sources_t db_archive)) by (right; now left).
  assert (Hoff : src_active archive = false) by reflexivity.
  split; [exact Hnd | split; [exact Hin | split; [exact Hoff|]]].
  exact (inactive_source_untouched fine db_archive archive Hnd Hin Hoff).
Defined.

Lemma no_keywords_no_articles_witness :
  let db := db_of [] [blog; feed] [] in
  Job.active_keywords db = []
  /\ articles_t (fst (Job.run_content_scraping fine db)) = [].
Proof.
  intros db.
  assert (Hk : Job.active_keywords db = []) by reflexivity.
  split; [exact Hk|].
  exact (proj1 (no_keywords_no_articles fine db Hk)).
Defined.

Lemma page_stored_once_witness :
  let s := Session.open (db_of [kw_ai] [blog] [blog_article]) in
  working s = committed s
  /\ source_type blog <> "rss"
  /\ In (src_url blog) (map art_url (articles_t (committed s)))
  /\ articles_t (committed (fst (Job.process_source works [kw_ai] blog s)))
     = [blog_article].
Proof.
  intros s.
  assert (Hclean : working s = committed s) by reflexivity.
  assert (Hweb : source_type blog <> "rss") by (simpl; discriminate).
  assert (Hin : In (src_url blog) (map art_url (articles_t (committed s))))
    by (now left).
  split; [exact Hclean | split; [exact Hweb | split; [exact Hin|]]].
  exact (proj1 (page_stored_once works [kw_ai] blog s Hclean Hweb Hin)).
Defined.

Lemma db0_terms_normal : Invariant.terms_normal db0.
Proof.
  split.
  - simpl. repeat (constructor; [simpl; intuition discriminate|]). constructor.
  - intros k [<-|[<-|[]]]; reflexivity.
Defined.

Lemma add_keyword_keeps_terms_normal_witness :
  Invariant.terms_normal db0
  /\ Invariant.terms_normal
       (fst (Routes.serve (Routes.add_keyword works (Some " Rust ")) db0)).
Proof.
  split; [exact db0_terms_normal|].
  exact (add_keyword_keeps_terms_normal works (Some " Rust ") db0
           db0_terms_normal).
Defined.

Lemma add_keyword_once_witness :
  let db1 := fst (Routes.serve (Routes.add_keyword works (Some "Rust")) db0) in
  PyStr.lower (PyStr.strip (Routes.form_get (Some "Rust")))
  = PyStr.lower (PyStr.strip (Routes.form_get (Some " RUST ")))
  /\ snd (Routes.serve (Routes.add_keyword works (Some "Rust")) db0) <> None
  /\ fst (Routes.serve (Routes.add_keyword works (Some " RUST ")) db1) = db1.
Proof.
  intros db1.
  assert (E : PyStr.lower (PyStr.strip (Routes.form_get (Some "Rust")))
              = PyStr.lower (PyStr.strip (Routes.form_get (Some " RUST "))))
    by (vm_compute; reflexivity).
  assert (A : snd (Routes.serve (Routes.add_keyword works (Some "Rust")) db0)
              <> None) by (vm_compute; discriminate).
  split; [exact E | split; [exact A|]].
  exact (proj1 (add_keyword_once works works (Some "Rust") (Some " RUST ")
                  db0 E A)).
Defined.

Lemma works_storage_works : Effect.storage_works works.
Proof. intros k. reflexivity. Defined.

Lemma db0_keyword_ids : NoDup (map kw_id (keywords_t db0)).
Proof.
  simpl. repeat (constructor; [simpl; intuition discriminate|]). constructor.
Defined.

Lemma db0_source_ids : NoDup (map src_id (sources_t db0)).
Proof.
  simpl. repeat (constructor; [simpl; intuition discriminate|]). constructor.
Defined.

Lemma toggle_keyword_twice_witness :
  NoDup (map kw_id (keywords_t db0))
  /\ Effect.storage_works works
  /\ fst (Routes.serve (Routes.toggle_keyword works 2)
            (fst (Routes.serve (Routes.toggle_keyword works 2) db0)))
     = db0.
Proof.
  split; [exact db0_keyword_ids | split; [exact works_storage_works|]].
  exact (proj1 (toggle_keyword_twice works works 2 db0 db0_keyword_ids
                  works_storage_works works_storage_works)).
Defined.

Lemma deactivated_keyword_not_matched_witness :
  NoDup (map kw_id (keywords_t db0))
  /\ In kw_python (keywords_t db0)
  /\ kw_active kw_python = true
  /\ Effect.storage_works works
  /\ Job.active_keywords
       (fst (Routes.serve (Routes.toggle_keyword works (kw_id kw_python)) db0))
     = filter (fun x => negb (kw_id x =? kw_id kw_python))
              (Job.active_keywords db0).
Proof.
  assert (Hin : In kw_python (keywords_t db0)) by (right; now left).
  assert (Hact : kw_active kw_python = true) by reflexivity.
  split; [exact db0_keyword_ids|]. split; [exact Hin|].
  split; [exact Hact|]. split; [exact works_storage_works|].
  exact (proj1 (deactivated_keyword_not_matched works fine kw_python db0
                  db0_keyword_ids Hin Hact works_storage_works)).
Defined.

Lemma add_source_keeps_urls_distinct_witness :
  NoDup (map src_url (sources_t db0))
  /\ NoDup (map src_id (sources_t db0))
  /\ NoDup (map src_url
                (sources_t
                   (fst (Routes.serve
                           (Routes.add_source works (Some "News")
                              (Some " https://news.example/ ") (Some "rss"))
                           db0)))).
Proof.
  assert (Hu : NoDup (map src_url (sources_t db0))).
  { simpl. repeat (constructor; [simpl; intuition discriminate|]).
    constructor. }
  split; [exact Hu | split; [exact db0_source_ids|]].
  exact (proj1 (add_source_keeps_urls_distinct works (Some "News")
                  (Some " https://news.example/ ") (Some "rss") db0
                  Hu db0_source_ids)).
Defined.

Lemma deactivated_source_not_scraped_witness :
  NoDup (map src_id (sources_t db0))
  /\ In blog (sources_t db0)
  /\ src_active blog = true
  /\ Effect.storage_works works
  /\ Effect.last_scraped_of (src_id blog)
       (fst (Job.run_content_scraping fine
               (fst (Routes.serve (Routes.toggle_source works (src_id blog))
                                  db0))))
     = Some (last_scraped blog).
Proof.
  assert (Hin : In blog (sources_t db0)) by (now left).
  assert (Hact : src_active blog = true) by reflexivity.
  split; [exact db0_source_ids|]. split; [exact Hin|].
  split; [exact Hact|]. split; [exact works_storage_works|].
  exact (proj1 (deactivated_source_not_scraped works fine blog db0
                  db0_source_ids Hin Hact works_storage_works)).
Defined.

Lemma defaults_written_once_witness :
  let db := db_of [] [] [] in
  Effect.storage_works works
  /\ Seed.started works (Seed.started works db) = Seed.started works db
  /\ List.length (keywords_t (Seed.started works db)) = 5.
Proof.
  intros db. split; [exact works_storage_works|].
  split; [|vm_compute; reflexivity].
  exact (proj1 (defaults_written_once works works db works_storage_works)).
Defined.
